(** * Picard Sözler (diamant fork): verification of the lyrics selector
      and of the request/response glue.

    The development embeds [src/picard-sozler-dimant.py] shallowly:

    - Python values decoded from JSON are the inductive [pyval]; a JSON
      object is a finite map from strings to values, [dict.get] is a map
      lookup that yields [PNone] on a missing key;
    - Python exceptions are the error side of [res];
    - the four local variables of [choose_best_result] are the record
      [slots], the [for] loop is a left fold of [loop_body];
    - [process_response] and [process_track] run in a small state monad
      over [world] (in-flight counter, calls of [_finalize_loading], the
      web-service queue, the track metadata and the log), with the
      [try / except / finally] of the source written as a combinator.

    A JSON number without fraction or exponent is a Python [int], modelled
    as [Z]; any other JSON number is a Python [float], modelled as an
    IEEE 754 binary64 value of the Standard Library's [spec_float], whose
    operations round to nearest even as the machine does.  A Python [str]
    is given by its UTF-8 encoding. *)

From Stdlib Require Import ZArith Lia Ascii String SpecFloat QArith Qabs.
From stdpp Require Import gmap strings list fin_maps.

#[local] Set Warnings "-register-all".
#[local] Open Scope Z_scope.

(** ** Python values and exceptions *)

Inductive exn : Type :=
  | AttributeError
  | TypeError
  | ValueError
  | OverflowError.

Inductive res (A : Type) : Type :=
  | Ok (a : A)
  | Raise (e : exn).
Arguments Ok {A} a.
Arguments Raise {A} e.

#[global] Instance res_ret : MRet res := fun _ a => Ok a.

#[global] Instance res_bind : MBind res := fun _ _ k r =>
  match r with
  | Ok a => k a
  | Raise e => Raise e
  end.

Inductive pyval : Type :=
  | PNone
  | PBool (b : bool)
  | PInt (n : Z)
  | PFloat (f : spec_float)
  | PStr (s : string)
  | PList (l : list pyval)
  | PDict (d : gmap string pyval).

(** Truth value testing, as [if v:], [not v], [a or b] and [a and b] do it. *)
Definition truthy (v : pyval) : bool :=
  match v with
  | PNone => false
  | PBool b => b
  | PInt n => negb (n =? 0)
  | PFloat f => match f with S754_zero _ => false | _ => true end
  | PStr s => match s with EmptyString => false | String _ _ => true end
  | PList l => match l with [] => false | _ :: _ => true end
  | PDict d => negb (bool_decide (d = ∅))
  end.

(** [a or b] *)
Definition py_or (a b : pyval) : pyval := if truthy a then a else b.

(** [d.get(k)] on a dict: the value, or [None] when the key is missing. *)
Definition dict_get (d : gmap string pyval) (k : string) : pyval :=
  default PNone (d !! k).

(** [v.get(k)]: only dicts have the attribute. *)
Definition py_get (v : pyval) (k : string) : res pyval :=
  match v with
  | PDict d => Ok (dict_get d k)
  | _ => Raise AttributeError
  end.

(** The numeric value of an operand of [-]; [bool] is a subclass of [int]. *)
Definition as_int (v : pyval) : option Z :=
  match v with
  | PInt n => Some n
  | PBool b => Some (if b then 1 else 0)
  | _ => None
  end.

(** Binary64: 53 bits of precision, exponents below 1024. *)
Definition prec : Z := 53.
Definition emax : Z := 1024.

(** The conversion of an [int] operand to [float]: the nearest double,
    ties to even, and [OverflowError] when that is not finite. *)
Definition int_to_float (n : Z) : res spec_float :=
  match binary_normalize prec emax n 0 false with
  | S754_infinity _ => Raise OverflowError
  | f => Ok f
  end.

(** The result of an arithmetic operation: an [int] or a [float]. *)
Inductive number : Type :=
  | NInt (n : Z)
  | NFloat (f : spec_float).

(** [v - n] for an integer [n]: exact on [int] and [bool], in double
    precision on [float], a [TypeError] on anything else. *)
Definition py_sub (v : pyval) (n : Z) : res number :=
  match v with
  | PFloat f => g ← int_to_float n; Ok (NFloat (SFsub prec emax f g))
  | _ =>
      match as_int v with
      | Some m => Ok (NInt (m - n))
      | None => Raise TypeError
      end
  end.

(** [f <= n] for a float and an integer, which Python compares exactly;
    a NaN compares false. *)
Definition float_le_int (f : spec_float) (n : Z) : bool :=
  match f with
  | S754_nan => false
  | S754_infinity s => s
  | S754_zero _ => 0 <=? n
  | S754_finite s m e =>
      let v := cond_Zopp s (Zpos m) in
      if 0 <=? e then v * 2 ^ e <=? n else v <=? n * 2 ^ (- e)
  end.

(** [abs(x) <= n] *)
Definition abs_le (x : number) (n : Z) : bool :=
  match x with
  | NInt d => Z.abs d <=? n
  | NFloat f => float_le_int (SFabs f) n
  end.

(** ** The selector: [choose_best_result] *)

Definition DURATION_TOLERANCE : Z := 2.

Record slots : Type := Slots {
  synced_duration_match : pyval;
  synced_any : pyval;
  plain_duration_match : pyval;
  plain_any : pyval
}.

Definition empty_slots : slots := Slots PNone PNone PNone PNone.

(** Lines 79-82: the flag [duration_match] of one candidate. *)
Definition duration_match (duration : pyval) (target_duration : Z) : res bool :=
  if truthy duration && truthy (PInt target_duration) then
    d ← py_sub duration target_duration;
    Ok (abs_le d DURATION_TOLERANCE)
  else Ok false.

(** Lines 84-88: the [if synced:] block. *)
Definition store_synced (dm : bool) (synced : pyval) (st : slots) : slots :=
  if truthy synced then
    if dm && negb (truthy (synced_duration_match st)) then
      Slots synced (synced_any st) (plain_duration_match st) (plain_any st)
    else if negb (truthy (synced_any st)) then
      Slots (synced_duration_match st) synced (plain_duration_match st) (plain_any st)
    else st
  else st.

(** Lines 90-94: the [if plain:] block. *)
Definition store_plain (dm : bool) (plain : pyval) (st : slots) : slots :=
  if truthy plain then
    if dm && negb (truthy (plain_duration_match st)) then
      Slots (synced_duration_match st) (synced_any st) plain (plain_any st)
    else if negb (truthy (plain_any st)) then
      Slots (synced_duration_match st) (synced_any st) (plain_duration_match st) plain
    else st
  else st.

(** Lines 72-94: one iteration of the loop on the element [result]. *)
Definition loop_body (target_duration : Z) (st : slots) (result : pyval) : res slots :=
  instrumental ← py_get result "instrumental";
  if truthy instrumental then Ok st
  else
    duration ← py_get result "duration";
    synced ← py_get result "syncedLyrics";
    plain ← py_get result "plainLyrics";
    dm ← duration_match duration target_duration;
    Ok (store_plain dm plain (store_synced dm synced st)).

(** Lines 71-94: the whole loop, from the slots [st]. *)
Fixpoint run_loop (target_duration : Z) (st : slots) (results : list pyval) : res slots :=
  match results with
  | [] => Ok st
  | result :: rest =>
      st' ← loop_body target_duration st result;
      run_loop target_duration st' rest
  end.

(** Lines 96-101: the returned expression [a or b or c or d]. *)
Definition pick (st : slots) : pyval :=
  py_or (py_or (py_or (synced_duration_match st) (synced_any st))
               (plain_duration_match st))
        (plain_any st).

Definition choose_best_result (results : list pyval) (target_duration : Z) : res pyval :=
  st ← run_loop target_duration empty_slots results;
  Ok (pick st).

(** ** Strings: [str.split] and [int] *)

(** [s.split(sep)] for a one-character separator. *)
Fixpoint split_on (sep : ascii) (s : string) : list string :=
  match s with
  | EmptyString => [EmptyString]
  | String c s' =>
      if Ascii.eqb c sep then EmptyString :: split_on sep s'
      else match split_on sep s' with
           | [] => [String c EmptyString]
           | p :: ps => String c p :: ps
           end
  end.

(** The code points of a [str] from its UTF-8 encoding; [None] on bytes
    that encode no [str].  [need] continuation bytes are awaited for the
    code point begun in [acc], which must reach [low]. *)
Fixpoint utf8_decode (need : nat) (acc low : Z) (bytes : list Z) : option (list Z) :=
  match bytes with
  | [] => match need with O => Some [] | S _ => None end
  | b :: rest =>
      match need with
      | O =>
          if b <? 128 then cons b <$> utf8_decode 0 0 0 rest
          else if (192 <=? b) && (b <? 224) then utf8_decode 1 (b - 192) 128 rest
          else if (224 <=? b) && (b <? 240) then utf8_decode 2 (b - 224) 2048 rest
          else if (240 <=? b) && (b <? 248) then utf8_decode 3 (b - 240) 65536 rest
          else None
      | S need' =>
          if (128 <=? b) && (b <? 192) then
            let acc' := acc * 64 + (b - 128) in
            match need' with
            | O =>
                if (low <=? acc') && (acc' <=? 1114111)
                then cons acc' <$> utf8_decode 0 0 0 rest
                else None
            | S _ => utf8_decode need' acc' low rest
            end
          else None
      end
  end.

Definition code_points (s : string) : option (list Z) :=
  utf8_decode 0 0 0 (map (λ c, Z.of_nat (nat_of_ascii c)) (list_ascii_of_string s)).

(** Where the runs of ten decimal digits of the Unicode database begin
    (Unicode 14.0, the database of CPython 3.11). *)
Definition decimal_zeros : list Z :=
  [48; 1632; 1776; 1984; 2406; 2534; 2662; 2790; 2918; 3046; 3174; 3302;
   3430; 3558; 3664; 3792; 3872; 4160; 4240; 6112; 6160; 6470; 6608; 6784;
   6800; 6992; 7088; 7232; 7248; 42528; 43216; 43264; 43472; 43504; 43600;
   44016; 65296; 66720; 68912; 69734; 69872; 69942; 70096; 70384; 70736;
   70864; 71248; 71360; 71472; 71904; 72016; 72784; 73040; 73120; 92768;
   92864; 93008; 120782; 120792; 120802; 120812; 120822; 123200; 123632;
   125264; 130032].

(** [Py_UNICODE_TODECIMAL] *)
Definition unicode_decimal (ch : Z) : option Z :=
  (λ z, ch - z) <$> List.find (λ z, (z <=? ch) && (ch <? z + 10)) decimal_zeros.

(** [Py_UNICODE_ISSPACE] *)
Definition unicode_isspace (ch : Z) : bool :=
  ((9 <=? ch) && (ch <=? 13)) || ((28 <=? ch) && (ch <=? 32))
  || (ch =? 133) || (ch =? 160) || (ch =? 5760)
  || ((8192 <=? ch) && (ch <=? 8202))
  || (ch =? 8232) || (ch =? 8233) || (ch =? 8239) || (ch =? 8287)
  || (ch =? 12288).

(** What [int] does to a [str] that is not ASCII before it parses it:
    code points below 127 are kept, other white space becomes a space,
    other decimal digits become ASCII digits, and the text is cut with a
    question mark at any other code point. *)
Fixpoint transform_decimal_and_space (l : list Z) : list Z :=
  match l with
  | [] => []
  | ch :: rest =>
      if ch <? 127 then ch :: transform_decimal_and_space rest
      else if unicode_isspace ch then 32 :: transform_decimal_and_space rest
      else match unicode_decimal ch with
           | Some d => (48 + d) :: transform_decimal_and_space rest
           | None => [63]
           end
  end.

(** [Py_ISSPACE]: the white space skipped around the numeral. *)
Definition is_space (c : Z) : bool :=
  ((9 <=? c) && (c <=? 13)) || (c =? 32).

Definition digit_of (c : Z) : option Z :=
  if (48 <=? c) && (c <=? 57) then Some (c - 48) else None.

Fixpoint lstrip (l : list Z) : list Z :=
  match l with
  | c :: l' => if is_space c then lstrip l' else l
  | [] => []
  end.

Definition strip (l : list Z) : list Z :=
  rev (lstrip (rev (lstrip l))).

(** Decimal digits, single underscores allowed between two digits.
    [after_digit] tells whether the previous character was a digit. *)
Fixpoint digits (acc : Z) (after_digit : bool) (l : list Z) : option Z :=
  match l with
  | [] => if after_digit then Some acc else None
  | c :: l' =>
      match digit_of c with
      | Some d => digits (acc * 10 + d) true l'
      | None =>
          if (c =? 95) && after_digit then digits acc false l' else None
      end
  end.

(** The number of digits of a numeral and the limit that [int] puts on
    it: more than 640 digits are checked against the interpreter's
    maximum, 4300 unless configured otherwise. *)
Definition count_digits (l : list Z) : nat :=
  length (List.filter (λ c, bool_decide (is_Some (digit_of c))) l).

Definition str_digits_check_threshold : nat := 640.
Definition default_max_str_digits : nat := 4300.

Definition too_many_digits (l : list Z) : bool :=
  let n := count_digits l in
  (str_digits_check_threshold <? n)%nat && (default_max_str_digits <? n)%nat.

(** [int(s)] in base 10: [None] stands for [ValueError]. *)
Definition py_int (s : string) : option Z :=
  l ← code_points s;
  let ascii := if forallb (λ ch, ch <? 128) l then l
               else transform_decimal_and_space l in
  let numeral :=
    match strip ascii with
    | 43 :: l' => (false, l')
    | 45 :: l' => (true, l')
    | l' => (false, l')
    end in
  n ← digits 0 false numeral.2;
  if too_many_digits numeral.2 then None
  else Some (if numeral.1 then - n else n).

(** [mins, secs = map(int, v.split(":"))] followed by [mins * 60 + secs]
    (lines 116-117 and 138-139): [split] needs a string, [int] a numeral
    and the unpacking exactly two parts. *)
Definition parse_length (v : pyval) : res Z :=
  match v with
  | PStr s =>
      match split_on ":" s with
      | [m; s] =>
          match py_int m, py_int s with
          | Some mins, Some secs => Ok (mins * 60 + secs)
          | _, _ => Raise ValueError
          end
      | _ => Raise ValueError
      end
  | _ => Raise AttributeError
  end.

(** ** The host: album, web service, metadata and log *)

Definition API_URL : string := "https://lrclib.net/api/search".

(** What the plugin logs; the formatted text is kept symbolic. *)
Inductive message : Type :=
  | MsgRequestFailed                          (* "API request failed" *)
  | MsgUnexpectedResponse (data : pyval)      (* "Unexpected API response: {data}" *)
  | MsgProcessing (n : nat)                   (* "Processing {len(data)} results" *)
  | MsgAttached                               (* "Lyrics successfully attached" *)
  | MsgNoLyrics                               (* "No suitable lyrics found" *)
  | MsgProcessingError (e : exn)              (* "Error processing response: {e}" *)
  | MsgQuerying (query : gmap string pyval).  (* "Querying API with: {query}" *)

Inductive log_entry : Type :=
  | LogDebug (m : message)
  | LogError (m : message).

(** One call of [album.tagger.webservice.get_url]; its handler is
    [process_response] bound to the album and metadata of the world. *)
Record request : Type := Request {
  url : string;
  parse_response_type : string;
  queryargs : gmap string pyval
}.

Record world : Type := World {
  requests : Z;                     (* album._requests *)
  finalize_calls : nat;             (* calls of album._finalize_loading(None) *)
  webservice : list request;        (* requests handed to the web service *)
  metadata : gmap string pyval;     (* the track's metadata object *)
  logged : list log_entry           (* oldest first *)
}.

(** How a block of statements ends. *)
Inductive completion (A : Type) : Type :=
  | Normal (a : A)
  | Returned
  | Raised (e : exn).
Arguments Normal {A} a.
Arguments Returned {A}.
Arguments Raised {A} e.

Definition M (A : Type) : Type := world -> completion A * world.

#[global] Instance M_ret : MRet M := fun _ a w => (Normal a, w).

#[global] Instance M_bind : MBind M := fun _ _ k m w =>
  match m w with
  | (Normal a, w') => k a w'
  | (Returned, w') => (Returned, w')
  | (Raised e, w') => (Raised e, w')
  end.

(** [return] *)
Definition return_ {A : Type} : M A := fun w => (Returned, w).

(** An expression that may raise. *)
Definition eval {A : Type} (r : res A) : M A := fun w =>
  match r with
  | Ok a => (Normal a, w)
  | Raise e => (Raised e, w)
  end.

Definition write_log (e : log_entry) : M unit := fun w =>
  (Normal tt,
   World (requests w) (finalize_calls w) (webservice w) (metadata w) (logged w ++ [e])).

Definition log_debug (m : message) : M unit := write_log (LogDebug m).
Definition log_error (m : message) : M unit := write_log (LogError m).

(** [album._requests += d] *)
Definition add_requests (d : Z) : M unit := fun w =>
  (Normal tt,
   World (requests w + d) (finalize_calls w) (webservice w) (metadata w) (logged w)).

(** [album._finalize_loading(None)] *)
Definition finalize_loading : M unit := fun w =>
  (Normal tt,
   World (requests w) (S (finalize_calls w)) (webservice w) (metadata w) (logged w)).

(** [album.tagger.webservice.get_url(...)] *)
Definition get_url (r : request) : M unit := fun w =>
  (Normal tt,
   World (requests w) (finalize_calls w) (webservice w ++ [r]) (metadata w) (logged w)).

(** [metadata.get(k)] *)
Definition metadata_get (k : string) : M pyval := fun w =>
  (Normal (dict_get (metadata w) k), w).

(** [metadata.get(k, dflt)] *)
Definition metadata_get_default (k : string) (dflt : pyval) : M pyval := fun w =>
  (Normal (default dflt (metadata w !! k)), w).

(** [metadata[k] = v] *)
Definition metadata_set (k : string) (v : pyval) : M unit := fun w =>
  (Normal tt,
   World (requests w) (finalize_calls w) (webservice w) (<[k := v]> (metadata w)) (logged w)).

(** [try: body / except Exception as e: handler e] *)
Definition try_except {A : Type} (body : M A) (handler : exn -> M A) : M A := fun w =>
  match body w with
  | (Raised e, w') => handler e w'
  | r => r
  end.

(** [try: body / finally: cleanup]: the cleanup runs however the body
    ends, and the body's completion is resumed when the cleanup ends
    normally. *)
Definition try_finally {A : Type} (body : M A) (cleanup : M unit) : M A := fun w =>
  let (c, w') := body w in
  match cleanup w' with
  | (Normal _, w'') => (c, w'')
  | (Returned, w'') => (Returned, w'')
  | (Raised e, w'') => (Raised e, w'')
  end.

(** ** The glue: [process_response] and [process_track] *)

(** Lines 112-126: the body of the [try]. *)
Definition response_body (data : pyval) : M unit :=
  match data with
  | PList results =>
      length_tag ← metadata_get_default "~length" (PStr "0:0");
      target_duration ← eval (parse_length length_tag);
      log_debug (MsgProcessing (List.length results));;
      lyrics ← eval (choose_best_result results target_duration);
      if truthy lyrics then
        metadata_set "lyrics" lyrics;;
        log_debug MsgAttached
      else
        log_debug MsgNoLyrics
  | _ =>
      log_error (MsgUnexpectedResponse data);;
      return_
  end.

(** Lines 104-133.  The album and the metadata are those of the world;
    [reply] is not used by the source and has no counterpart here. *)
Definition process_response (data : pyval) (error : pyval) : M unit :=
  if truthy error then
    log_error MsgRequestFailed;;
    add_requests (-1);;
    finalize_loading;;
    return_
  else
    try_finally
      (try_except
         (response_body data)
         (fun e => log_error (MsgProcessingError e)))
      (add_requests (-1);;
       finalize_loading).

(** Lines 137-141: the local [duration] of [process_track]. *)
Definition track_duration : M pyval :=
  try_except
    (length_tag ← metadata_get_default "~length" (PStr "0:0");
     n ← eval (parse_length length_tag);
     mret (PInt n))
    (fun _ => mret PNone).

(** Lines 136-157.  [track] and [release] are not used by the source; the
    local [duration] is computed and never read. *)
Definition process_track : M unit :=
  duration ← track_duration;
  artist ← metadata_get "artist";
  title ← metadata_get "title";
  let query : gmap string pyval :=
    <["track_name" := title]> (<["artist_name" := artist]> ∅) in
  log_debug (MsgQuerying query);;
  get_url (Request API_URL "json" query);;
  add_requests 1.

(** The target duration that [process_response] computes in the world [w]. *)
Definition target_of (w : world) : res Z :=
  parse_length (default (PStr "0:0") (metadata w !! "~length")).

(** The world after a call. *)
Definition run {A : Type} (m : M A) (w : world) : world := (m w).2.

(** ** Vocabulary of the specification *)

(** The fields of a candidate record, read as the loop reads them. *)
Definition instrumental (d : gmap string pyval) : bool :=
  truthy (dict_get d "instrumental").
Definition duration_of (d : gmap string pyval) : pyval := dict_get d "duration".
Definition synced_of (d : gmap string pyval) : pyval := dict_get d "syncedLyrics".
Definition plain_of (d : gmap string pyval) : pyval := dict_get d "plainLyrics".

(** An element that the loop skips: a record flagged instrumental. *)
Definition skipped (c : pyval) : bool :=
  match c with
  | PDict d => instrumental d
  | _ => false
  end.

(** A candidate of the data model: a record whose duration is a whole
    number or absent and whose lyrics fields are text or absent. *)
Definition is_candidate (c : pyval) : bool :=
  match c with
  | PDict d =>
      match duration_of d with PNone | PInt _ => true | _ => false end
      && match synced_of d with PNone | PStr _ => true | _ => false end
      && match plain_of d with PNone | PStr _ => true | _ => false end
  | _ => false
  end.

(** A candidate that qualifies for slot 1: not instrumental, with synced
    text and a matching duration. *)
Definition synced_match (target_duration : Z) (d : gmap string pyval) : Prop :=
  instrumental d = false
  ∧ truthy (synced_of d) = true
  ∧ duration_match (duration_of d) target_duration = Ok true.

(** A candidate that qualifies for slot 3. *)
Definition plain_match (target_duration : Z) (d : gmap string pyval) : Prop :=
  instrumental d = false
  ∧ truthy (plain_of d) = true
  ∧ duration_match (duration_of d) target_duration = Ok true.

(** The exact value of a number: an [int], a [bool] or a finite [float]. *)
Definition number_value (v : pyval) : option Q :=
  match v with
  | PInt n => Some (inject_Z n)
  | PBool b => Some (inject_Z (if b then 1 else 0))
  | PFloat (S754_zero _) => Some (inject_Z 0)
  | PFloat (S754_finite s m e) =>
      Some (inject_Z (cond_Zopp s (Zpos m)) * Qpower (inject_Z 2) e)%Q
  | _ => None
  end.

(** The four slots by number. *)
Inductive slot_id : Type := Slot1 | Slot2 | Slot3 | Slot4.

Definition slot_of (i : slot_id) (st : slots) : pyval :=
  match i with
  | Slot1 => synced_duration_match st
  | Slot2 => synced_any st
  | Slot3 => plain_duration_match st
  | Slot4 => plain_any st
  end.

(** The first slot that is not [None], in the order of the list, as the
    specification words the result; [None] when there is none. *)
Fixpoint first_nonempty (l : list pyval) : pyval :=
  match l with
  | [] => PNone
  | PNone :: l' => first_nonempty l'
  | v :: _ => v
  end.

Definition slot_list (st : slots) : list pyval :=
  [synced_duration_match st; synced_any st; plain_duration_match st; plain_any st].

(** A slot holds [None] or a value that tests true. *)
Definition slot_ok (v : pyval) : Prop := v = PNone ∨ truthy v = true.

Definition slots_ok (st : slots) : Prop :=
  slot_ok (synced_duration_match st) ∧ slot_ok (synced_any st)
  ∧ slot_ok (plain_duration_match st) ∧ slot_ok (plain_any st).

(** A lyrics field holding the empty text is removed from the record. *)
Definition drop_empty (k : string) (d : gmap string pyval) : gmap string pyval :=
  match d !! k with
  | Some (PStr EmptyString) => delete k d
  | _ => d
  end.

Definition drop_empty_text (c : pyval) : pyval :=
  match c with
  | PDict d => PDict (drop_empty "plainLyrics" (drop_empty "syncedLyrics" d))
  | _ => c
  end.

(** Sample records and worlds used by the examples below. *)
Definition fields_synced_A : gmap string pyval :=
  list_to_map [("duration", PInt 180); ("syncedLyrics", PStr "A")].
Definition fields_synced_B : gmap string pyval :=
  list_to_map [("duration", PInt 181); ("syncedLyrics", PStr "B")].
Definition fields_plain_A : gmap string pyval :=
  list_to_map [("duration", PInt 180); ("plainLyrics", PStr "A")].
Definition fields_plain_B : gmap string pyval :=
  list_to_map [("duration", PInt 181); ("plainLyrics", PStr "B")].
Definition fields_plain_C : gmap string pyval :=
  list_to_map [("duration", PInt 300); ("plainLyrics", PStr "C")].
Definition fields_instrumental_X : gmap string pyval :=
  list_to_map [("instrumental", PBool true); ("syncedLyrics", PStr "X")].

Definition synced_A : pyval := PDict fields_synced_A.
Definition synced_B : pyval := PDict fields_synced_B.
Definition plain_A : pyval := PDict fields_plain_A.
Definition plain_B : pyval := PDict fields_plain_B.
Definition plain_C : pyval := PDict fields_plain_C.
Definition instrumental_X : pyval := PDict fields_instrumental_X.

Definition idle (m : gmap string pyval) : world := World 1 0 [] m [].
Definition unknown_length : gmap string pyval := <["~length" := PStr "?:??"]> ∅.

(** Every call of [process_response] follows one of the six paths. *)
Inductive response_path (w : world) (data error : pyval) : Prop :=
  | TransportError :
      truthy error = true → response_path w data error
  | NotAList :
      truthy error = false → (∀ l, data ≠ PList l) → response_path w data error
  | ParseError (results : list pyval) (e : exn) :
      truthy error = false → data = PList results →
      target_of w = Raise e → response_path w data error
  | SelectorError (results : list pyval) (t : Z) (e : exn) :
      truthy error = false → data = PList results →
      target_of w = Ok t → choose_best_result results t = Raise e →
      response_path w data error
  | LyricsFound (results : list pyval) (t : Z) (v : pyval) :
      truthy error = false → data = PList results →
      target_of w = Ok t → choose_best_result results t = Ok v →
      truthy v = true → response_path w data error
  | NoLyrics (results : list pyval) (t : Z) (v : pyval) :
      truthy error = false → data = PList results →
      target_of w = Ok t → choose_best_result results t = Ok v →
      truthy v = false → response_path w data error.

(** ** Vocabulary of the further properties *)

(** Whether the duration of the record [d] matches the target. *)
Definition matches (t : Z) (d : gmap string pyval) : bool :=
  match duration_match (duration_of d) t with
  | Ok true => true
  | _ => false
  end.

(** The field [f] of the first record of the list that is not
    instrumental, whose field [f] tests true and that passes [p];
    [None] when there is no such record. *)
Fixpoint first_text (p : gmap string pyval → bool) (f : gmap string pyval → pyval)
    (results : list pyval) : pyval :=
  match results with
  | [] => PNone
  | PDict d :: rest =>
      if negb (instrumental d) && truthy (f d) && p d then f d
      else first_text p f rest
  | _ :: rest => first_text p f rest
  end.

(** The priority list of the docstring of [choose_best_result], as four
    searches of the list. *)
Definition priority_search (results : list pyval) (t : Z) : pyval :=
  first_nonempty
    [first_text (matches t) synced_of results;
     first_text (λ _, true) synced_of results;
     first_text (matches t) plain_of results;
     first_text (λ _, true) plain_of results].

(** The exception, if any, that the subtraction raises on a duration
    that tests true while the target is not zero: a float duration needs
    a target that converts to a double, any other duration must be an
    [int] or a [bool]. *)
Definition duration_error (t : Z) (v : pyval) : option exn :=
  if truthy v && negb (t =? 0) then
    match v with
    | PFloat _ =>
        match int_to_float t with
        | Ok _ => None
        | Raise _ => Some OverflowError
        end
    | _ =>
        match as_int v with
        | Some _ => None
        | None => Some TypeError
        end
    end
  else None.

(** The exception, if any, that one iteration of the loop raises on the
    element [c]: an element without [get], or a record that is not
    skipped and whose duration makes the subtraction raise. *)
Definition element_error (t : Z) (c : pyval) : option exn :=
  match c with
  | PDict d => if instrumental d then None else duration_error t (duration_of d)
  | _ => Some AttributeError
  end.

Fixpoint first_error (t : Z) (results : list pyval) : option exn :=
  match results with
  | [] => None
  | c :: rest =>
      match element_error t c with
      | Some e => Some e
      | None => first_error t rest
      end
  end.

(** The record without its duration. *)
Definition strip_duration (c : pyval) : pyval :=
  match c with
  | PDict d => PDict (delete "duration" d)
  | _ => c
  end.

(** Two elements that the loop cannot tell apart: two records with the
    same four fields read by [get], or two elements that are not records. *)
Definition same_fields (c1 c2 : pyval) : Prop :=
  match c1, c2 with
  | PDict d1, PDict d2 =>
      dict_get d1 "instrumental" = dict_get d2 "instrumental"
      ∧ duration_of d1 = duration_of d2
      ∧ synced_of d1 = synced_of d2
      ∧ plain_of d1 = plain_of d2
  | PDict _, _ | _, PDict _ => False
  | _, _ => True
  end.

(** Whether the separator occurs in the string. *)
Fixpoint occurs (sep : ascii) (s : string) : bool :=
  match s with
  | EmptyString => false
  | String c s' => Ascii.eqb c sep || occurs sep s'
  end.

(** The calls the host makes: the per-track hook and the delivery of a
    response to its handler. *)
Inductive event : Type :=
  | Dispatch
  | Response (data error : pyval).

Definition handle (ev : event) : M unit :=
  match ev with
  | Dispatch => process_track
  | Response data error => process_response data error
  end.

Fixpoint run_events (evs : list event) (w : world) : world :=
  match evs with
  | [] => w
  | ev :: rest => run_events rest (run (handle ev) w)
  end.

Fixpoint dispatches (evs : list event) : nat :=
  match evs with
  | [] => 0
  | Dispatch :: rest => S (dispatches rest)
  | Response _ _ :: rest => dispatches rest
  end.

Fixpoint responses (evs : list event) : nat :=
  match evs with
  | [] => 0
  | Dispatch :: rest => responses rest
  | Response _ _ :: rest => S (responses rest)
  end.

(** The world with the metadata map replaced. *)
Definition with_metadata (m : gmap string pyval) (w : world) : world :=
  World (requests w) (finalize_calls w) (webservice w) m (logged w).

(** The entries added to the log between two worlds. *)
Definition new_entries (w w' : world) : list log_entry :=
  drop (length (logged w)) (logged w').

(** Whether the response is processed to the end: no transport error, a
    list, a length that parses and a selector that returns. *)
Definition selection_completes (w : world) (data error : pyval) : Prop :=
  ∃ results t v,
    truthy error = false ∧ data = PList results
    ∧ target_of w = Ok t ∧ choose_best_result results t = Ok v.

(** More sample data. *)
Definition fields_synced_far : gmap string pyval :=
  list_to_map [("duration", PInt 300); ("syncedLyrics", PStr "S")].
Definition fields_both : gmap string pyval :=
  list_to_map [("duration", PInt 180); ("syncedLyrics", PStr "L");
               ("plainLyrics", PStr "P"); ("trackName", PStr "Song")].
Definition fields_text_duration : gmap string pyval :=
  list_to_map [("duration", PStr "180"); ("plainLyrics", PStr "T")].
(** The double below 1, [0.9999999999999999], and the doubles 181.5 and
    177.5. *)
Definition almost_one : spec_float := S754_finite false 9007199254740991 (-53).
Definition float_181_5 : spec_float := S754_finite false 6385963534123008 (-45).
Definition float_177_5 : spec_float := S754_finite false 6245226045767680 (-45).
Definition fields_almost_one : gmap string pyval :=
  list_to_map [("duration", PFloat almost_one); ("syncedLyrics", PStr "F")].
Definition fields_float_near : gmap string pyval :=
  list_to_map [("duration", PFloat float_181_5); ("syncedLyrics", PStr "N")].
Definition fields_float_far : gmap string pyval :=
  list_to_map [("duration", PFloat float_177_5); ("syncedLyrics", PStr "M")].
Definition synced_far : pyval := PDict fields_synced_far.
Definition both : pyval := PDict fields_both.
Definition text_duration : pyval := PDict fields_text_duration.

(** Unfolds the monadic glue down to its effect on the world. *)
Ltac run_glue :=
  unfold run, process_response, try_finally, try_except, response_body,
    target_of, metadata_get_default, metadata_set, log_error, log_debug,
    write_log, add_requests, finalize_loading, return_, eval,
    mbind, M_bind in *;
  simpl in *.

(** * Properties *)

(** ** The embedding on concrete inputs *)

Example split_minutes_seconds : split_on ":" "3:45" = ["3"; "45"]%string.
Proof. reflexivity. Qed.

Example split_empty : split_on ":" EmptyString = [EmptyString].
Proof. reflexivity. Qed.

Example split_hours : split_on ":" "1:02:03" = ["1"; "02"; "03"]%string.
Proof. reflexivity. Qed.

Example int_signed_underscore : py_int " -1_0 " = Some (-10).
Proof. reflexivity. Qed.

Example int_double_underscore : py_int "1__0" = None.
Proof. reflexivity. Qed.

Example int_empty : py_int EmptyString = None.
Proof. reflexivity. Qed.

Example int_separator_not_stripped :
  py_int (String (ascii_of_nat 28) "3") = None.
Proof. reflexivity. Qed.

Example int_arabic_indic_digits : py_int "٣٤٥" = Some 345.
Proof. reflexivity. Qed.

Example int_no_break_space : py_int " 7 " = Some 7.
Proof. reflexivity. Qed.

Example int_fullwidth_digit_then_letter : py_int "５x" = None.
Proof. reflexivity. Qed.

Example int_4300_digits :
  py_int (string_of_list_ascii (repeat "0"%char 4299 ++ ["7"%char])) = Some 7.
Proof. vm_compute. reflexivity. Qed.

Example int_4301_digits :
  py_int (string_of_list_ascii (repeat "0"%char 4300 ++ ["7"%char])) = None.
Proof. vm_compute. reflexivity. Qed.

Example float_180_5_matches :
  duration_match (PFloat (S754_finite false 6350779162034176 (-45))) 182 = Ok true.
Proof. reflexivity. Qed.

Example float_difference_is_rounded :
  duration_match (PFloat almost_one) 3 = Ok true.
Proof. reflexivity. Qed.

Example float_nan_never_matches : duration_match (PFloat S754_nan) 180 = Ok false.
Proof. reflexivity. Qed.

Example float_huge_target_overflows :
  duration_match (PFloat float_181_5) (10 ^ 400) = Raise OverflowError.
Proof. vm_compute. reflexivity. Qed.

Example int_huge_target_is_exact :
  duration_match (PInt 180) (10 ^ 400) = Ok false.
Proof. vm_compute. reflexivity. Qed.

Example parse_length_ok : parse_length (PStr "3:45") = Ok 225.
Proof. reflexivity. Qed.

Example parse_length_hours : parse_length (PStr "1:02:03") = Raise ValueError.
Proof. reflexivity. Qed.

(** The scenarios of the specification's section 8. *)
Example scenario_synced_first :
  choose_best_result [synced_A; plain_B] 180 = Ok (PStr "A").
Proof. reflexivity. Qed.

Example scenario_instrumental :
  choose_best_result [instrumental_X] 180 = Ok PNone.
Proof. reflexivity. Qed.

Example scenario_plain_any :
  choose_best_result [plain_C] 100 = Ok (PStr "C").
Proof. reflexivity. Qed.

Example response_attaches_lyrics :
  run (process_response (PList [plain_C]) PNone) (idle ∅)
  = World 0 1 [] (<["lyrics" := PStr "C"]> ∅)
      [LogDebug (MsgProcessing 1); LogDebug MsgAttached].
Proof. vm_compute. reflexivity. Qed.

Example response_transport_error :
  run (process_response PNone (PInt 3)) (idle ∅)
  = World 0 1 [] ∅ [LogError MsgRequestFailed].
Proof. vm_compute. reflexivity. Qed.

(** ** Truth values and slots *)

Lemma truthy_not_none (v : pyval) : truthy v = true → v ≠ PNone.
Proof. intros H ->. discriminate. Qed.

Lemma slot_ok_none : slot_ok PNone.
Proof. by left. Qed.

Lemma slot_ok_truthy (v : pyval) : truthy v = true → slot_ok v.
Proof. by right. Qed.

Create HintDb slots.
#[local] Hint Resolve slot_ok_none slot_ok_truthy : slots.

Lemma slot_ok_empty (v : pyval) : slot_ok v → truthy v = false → v = PNone.
Proof. intros [-> | H] Hf; [done | congruence]. Qed.

Lemma empty_slots_ok : slots_ok empty_slots.
Proof. repeat split; apply slot_ok_none. Qed.

Lemma py_or_none (b : pyval) : py_or PNone b = b.
Proof. reflexivity. Qed.

Lemma py_or_truthy (a b : pyval) : truthy a = true → py_or a b = a.
Proof. unfold py_or. by intros ->. Qed.

(** The returned expression yields the first slot that is not [None]. *)
Lemma pick_first_nonempty (st : slots) :
  slots_ok st → pick st = first_nonempty (slot_list st).
Proof.
  destruct st as [s1 s2 s3 s4]. unfold slots_ok, pick, slot_list. simpl.
  intros (H1 & H2 & H3 & H4).
  destruct H1 as [-> | H1].
  - rewrite py_or_none. destruct H2 as [-> | H2].
    + rewrite py_or_none. destruct H3 as [-> | H3].
      * rewrite py_or_none. destruct H4 as [-> | H4]; [done |].
        by destruct s4.
      * rewrite (py_or_truthy s3) by done. by destruct s3.
    + rewrite (py_or_truthy s2), (py_or_truthy s2) by done. by destruct s2.
  - rewrite !(py_or_truthy s1) by done. by destruct s1.
Qed.

Lemma pick_ok (st : slots) : slots_ok st → slot_ok (pick st).
Proof.
  destruct st as [s1 s2 s3 s4]. unfold slots_ok, pick, py_or. simpl.
  intros (H1 & H2 & H3 & H4).
  destruct (truthy s1) eqn:E1; simpl.
  - rewrite E1. rewrite E1. by right.
  - destruct (truthy s2) eqn:E2; simpl.
    + rewrite E2. by right.
    + destruct (truthy s3) eqn:E3; [by right | done].
Qed.

(** ** One iteration of the loop *)

Lemma loop_body_dict (t : Z) (st : slots) (d : gmap string pyval) :
  loop_body t st (PDict d)
  = if instrumental d then Ok st
    else dm ← duration_match (duration_of d) t;
         Ok (store_plain dm (plain_of d) (store_synced dm (synced_of d) st)).
Proof. reflexivity. Qed.

Lemma loop_body_not_dict (t : Z) (st : slots) (c : pyval) :
  (∀ d, c ≠ PDict d) → loop_body t st c = Raise AttributeError.
Proof. intros H. destruct c; try reflexivity. by destruct (H d). Qed.

Lemma loop_body_skipped (t : Z) (st : slots) (c : pyval) :
  skipped c = true → loop_body t st c = Ok st.
Proof.
  destruct c; try discriminate. simpl. intros H.
  rewrite loop_body_dict. by rewrite H.
Qed.

(** What an iteration that ends normally did. *)
Lemma loop_body_inv (t : Z) (st st' : slots) (c : pyval) :
  loop_body t st c = Ok st' →
  ∃ d, c = PDict d
    ∧ ((instrumental d = true ∧ st' = st)
       ∨ (instrumental d = false
          ∧ ∃ dm, duration_match (duration_of d) t = Ok dm
              ∧ st' = store_plain dm (plain_of d)
                        (store_synced dm (synced_of d) st))).
Proof.
  destruct c; try discriminate. rewrite loop_body_dict. intros H.
  exists d. split; [done |].
  destruct (instrumental d).
  - left. split; [done | congruence].
  - right. split; [done |].
    destruct (duration_match (duration_of d) t) as [dm | e]; [| discriminate].
    exists dm. split; [done |]. simpl in H. congruence.
Qed.

Lemma store_synced_ok (dm : bool) (v : pyval) (st : slots) :
  slots_ok st → slots_ok (store_synced dm v st).
Proof.
  unfold store_synced, slots_ok. intros (H1 & H2 & H3 & H4).
  destruct (truthy v) eqn:Ev; [| done].
  destruct (dm && negb (truthy (synced_duration_match st))); simpl;
    [by auto with slots |].
  destruct (negb (truthy (synced_any st))); simpl; by auto with slots.
Qed.

Lemma store_plain_ok (dm : bool) (v : pyval) (st : slots) :
  slots_ok st → slots_ok (store_plain dm v st).
Proof.
  unfold store_plain, slots_ok. intros (H1 & H2 & H3 & H4).
  destruct (truthy v) eqn:Ev; [| done].
  destruct (dm && negb (truthy (plain_duration_match st))); simpl;
    [by auto 6 with slots |].
  destruct (negb (truthy (plain_any st))); simpl; by auto 6 with slots.
Qed.

Lemma loop_body_ok (t : Z) (st st' : slots) (c : pyval) :
  loop_body t st c = Ok st' → slots_ok st → slots_ok st'.
Proof.
  intros H Hok. apply loop_body_inv in H as (d & -> & [[_ ->] | (_ & dm & _ & ->)]).
  - done.
  - by apply store_plain_ok, store_synced_ok.
Qed.

Lemma run_loop_ok (t : Z) (results : list pyval) :
  ∀ st st', run_loop t st results = Ok st' → slots_ok st → slots_ok st'.
Proof.
  induction results as [| c rest IH]; intros st st' H Hok; simpl in H.
  - congruence.
  - destruct (loop_body t st c) as [st1 |] eqn:E; [| discriminate].
    simpl in H. eapply IH; [exact H |]. by eapply loop_body_ok.
Qed.

Lemma run_loop_app (t : Z) (pre post : list pyval) (st : slots) :
  run_loop t st (pre ++ post)
  = st' ← run_loop t st pre; run_loop t st' post.
Proof.
  revert st. induction pre as [| c pre IH]; intros st; simpl; [done |].
  destruct (loop_body t st c) as [st1 |]; simpl; [apply IH | done].
Qed.

(** ** A filled slot keeps its value *)

Lemma store_synced_keeps (dm : bool) (v : pyval) (st : slots) (i : slot_id) :
  truthy (slot_of i st) = true →
  slot_of i (store_synced dm v st) = slot_of i st.
Proof.
  unfold store_synced. intros H.
  destruct (truthy v); [| done].
  destruct dm; simpl.
  - destruct (truthy (synced_duration_match st)) eqn:E1; simpl.
    + destruct (truthy (synced_any st)) eqn:E2; simpl; [done |].
      destruct i; simpl in *; congruence.
    + destruct i; simpl in *; congruence.
  - destruct (truthy (synced_any st)) eqn:E2; simpl; [done |].
    destruct i; simpl in *; congruence.
Qed.

Lemma store_plain_keeps (dm : bool) (v : pyval) (st : slots) (i : slot_id) :
  truthy (slot_of i st) = true →
  slot_of i (store_plain dm v st) = slot_of i st.
Proof.
  unfold store_plain. intros H.
  destruct (truthy v); [| done].
  destruct dm; simpl.
  - destruct (truthy (plain_duration_match st)) eqn:E1; simpl.
    + destruct (truthy (plain_any st)) eqn:E2; simpl; [done |].
      destruct i; simpl in *; congruence.
    + destruct i; simpl in *; congruence.
  - destruct (truthy (plain_any st)) eqn:E2; simpl; [done |].
    destruct i; simpl in *; congruence.
Qed.

Lemma loop_body_keeps (t : Z) (st st' : slots) (c : pyval) (i : slot_id) :
  loop_body t st c = Ok st' →
  truthy (slot_of i st) = true →
  slot_of i st' = slot_of i st.
Proof.
  intros H Hi.
  apply loop_body_inv in H as (d & -> & [[_ ->] | (_ & dm & _ & ->)]); [done |].
  rewrite store_plain_keeps; rewrite store_synced_keeps; done.
Qed.

Lemma run_loop_keeps (t : Z) (results : list pyval) (i : slot_id) :
  ∀ st st', run_loop t st results = Ok st' →
            truthy (slot_of i st) = true →
            slot_of i st' = slot_of i st.
Proof.
  induction results as [| c rest IH]; intros st st' H Hi; simpl in H.
  - congruence.
  - destruct (loop_body t st c) as [st1 |] eqn:E; [| discriminate].
    simpl in H.
    pose proof (loop_body_keeps _ _ _ _ i E Hi) as E1.
    rewrite <- E1. apply IH; [done | congruence].
Qed.

(** Where the value of a slot comes from: an iteration either leaves the
    slot alone or stores a lyrics field of its record there. *)
Lemma loop_body_source (t : Z) (st st' : slots) (c : pyval) (i : slot_id) :
  loop_body t st c = Ok st' →
  slot_of i st' = slot_of i st
  ∨ ∃ d, c = PDict d ∧ instrumental d = false
       ∧ truthy (slot_of i st') = true
       ∧ (slot_of i st' = synced_of d ∨ slot_of i st' = plain_of d).
Proof.
  intros H.
  apply loop_body_inv in H as (d & -> & [[_ ->] | (Hi & dm & _ & ->)]);
    [by left |].
  unfold store_plain, store_synced.
  destruct (truthy (synced_of d)) eqn:Es, (truthy (plain_of d)) eqn:Ep;
    destruct dm; simpl;
    destruct (truthy (synced_duration_match st)) eqn:E1;
    destruct (truthy (synced_any st)) eqn:E2;
    destruct (truthy (plain_duration_match st)) eqn:E3;
    destruct (truthy (plain_any st)) eqn:E4; simpl;
    rewrite ?E1, ?E2, ?E3, ?E4; simpl;
    destruct i; simpl; first [by left | right; exists d; by auto 8].
Qed.

Lemma run_loop_source (t : Z) (results : list pyval) (i : slot_id) :
  ∀ st st', run_loop t st results = Ok st' →
    slot_of i st' = slot_of i st
    ∨ ∃ d, PDict d ∈ results ∧ instrumental d = false
         ∧ truthy (slot_of i st') = true
         ∧ (slot_of i st' = synced_of d ∨ slot_of i st' = plain_of d).
Proof.
  induction results as [| c rest IH]; intros st st' H; simpl in H.
  - left. congruence.
  - destruct (loop_body t st c) as [st1 |] eqn:E; [| discriminate].
    simpl in H.
    destruct (IH _ _ H) as [Heq | (d & Hin & Hd)].
    + destruct (loop_body_source _ _ _ _ i E) as [Heq1 | (d & -> & Hi & Ht & Hs)].
      * left. congruence.
      * right. exists d. rewrite Heq. split; [by left |]. done.
    + right. exists d. split; [by right | done].
Qed.

(** ** The loop ends normally on candidates of the data model *)

Lemma duration_match_total (v : pyval) (t : Z) :
  match v with PNone | PInt _ | PBool _ => True | _ => False end →
  ∃ dm, duration_match v t = Ok dm.
Proof.
  unfold duration_match, py_sub.
  destruct v as [| b | n | | | |]; try done; intros _; simpl.
  - eauto.
  - destruct b, (negb (t =? 0)); simpl; eauto.
  - destruct (negb (n =? 0) && negb (t =? 0)); simpl; eauto.
Qed.

Lemma loop_body_total (t : Z) (st : slots) (c : pyval) :
  is_candidate c = true → ∃ st', loop_body t st c = Ok st'.
Proof.
  destruct c; try discriminate. simpl. intros H.
  rewrite loop_body_dict. destruct (instrumental d); [eauto |].
  destruct (duration_match_total (duration_of d) t) as [dm ->].
  - by destruct (duration_of d).
  - simpl. eauto.
Qed.

Lemma run_loop_total (t : Z) (results : list pyval) :
  Forall (λ c, is_candidate c = true) results →
  ∀ st, ∃ st', run_loop t st results = Ok st'.
Proof.
  induction 1 as [| c rest Hc _ IH]; intros st; simpl; [eauto |].
  destruct (loop_body_total t st c Hc) as [st1 ->]. simpl. apply IH.
Qed.

Lemma choose_best_result_total (t : Z) (results : list pyval) :
  Forall (λ c, is_candidate c = true) results →
  ∃ v, choose_best_result results t = Ok v.
Proof.
  intros H. unfold choose_best_result.
  destruct (run_loop_total t results H empty_slots) as [st ->]. simpl. eauto.
Qed.

(** ** What the selector returns *)

Lemma choose_best_result_inv (results : list pyval) (t : Z) (v : pyval) :
  choose_best_result results t = Ok v →
  ∃ st, run_loop t empty_slots results = Ok st ∧ slots_ok st ∧ v = pick st.
Proof.
  unfold choose_best_result. intros H.
  destruct (run_loop t empty_slots results) as [st |] eqn:E; [| discriminate].
  simpl in H. exists st. split; [done |]. split; [| congruence].
  eapply run_loop_ok; [exact E | apply empty_slots_ok].
Qed.

(** The result is [None] or a lyrics field, testing true, of a record of
    the list that is not instrumental. *)
Lemma choose_best_result_source (results : list pyval) (t : Z) (v : pyval) :
  choose_best_result results t = Ok v →
  v = PNone
  ∨ (truthy v = true
     ∧ ∃ d, PDict d ∈ results ∧ instrumental d = false
          ∧ (synced_of d = v ∨ plain_of d = v)).
Proof.
  intros H. apply choose_best_result_inv in H as (st & Hrun & Hok & ->).
  assert (∃ i, pick st = slot_of i st) as [i Hi].
  { unfold pick, py_or.
    destruct (truthy (synced_duration_match st)) eqn:E1; simpl.
    - rewrite !E1. by exists Slot1.
    - destruct (truthy (synced_any st)) eqn:E2; simpl.
      + rewrite E2. by exists Slot2.
      + destruct (truthy (plain_duration_match st)); [by exists Slot3 | by exists Slot4]. }
  rewrite Hi.
  destruct (run_loop_source t results i _ _ Hrun) as [Heq | (d & Hin & Hd & Ht & Hs)].
  - left. rewrite Heq. by destruct i.
  - right. split; [done |]. exists d. split; [done |]. split; [done |].
    destruct Hs as [-> | ->]; auto.
Qed.

(** ** Claims about the selector *)

Example late_synced_match_run :
  run_loop 180 empty_slots [synced_A; synced_B]
  = Ok (Slots (PStr "A") (PStr "B") PNone PNone).
Proof. reflexivity. Qed.

Example late_plain_match_run :
  run_loop 180 empty_slots [plain_A; plain_B]
  = Ok (Slots PNone PNone (PStr "A") (PStr "B")).
Proof. reflexivity. Qed.

(** C1, as stated, fails: it is not the case that a record with synced
    text and a matching duration, met when slot 1 is already filled,
    leaves slot 2 as it was.  After [synced_A] has filled slot 1, the
    matching [synced_B] is stored in slot 2. *)
Lemma late_match_not_dropped :
  ¬ (∀ (t : Z) (st st' : slots) (d : gmap string pyval),
        synced_match t d →
        truthy (synced_duration_match st) = true →
        loop_body t st (PDict d) = Ok st' →
        synced_any st' = synced_any st).
Proof.
  intros H.
  specialize (H 180 (Slots (PStr "A") PNone PNone PNone)
                (Slots (PStr "A") (PStr "B") PNone PNone) fields_synced_B).
  assert (synced_match 180 fields_synced_B) as Hm by (repeat split; reflexivity).
  specialize (H Hm eq_refl eq_refl). discriminate H.
Qed.

(** C1, amended: a record that is not instrumental and whose duration
    matches, met when slot 1 (slot 3) is already filled, leaves that slot
    unchanged and falls through to the [elif]: its synced (plain) text is
    stored in slot 2 (slot 4) when that slot is still empty, and is
    ignored when it is filled. *)
Theorem late_match_falls_through
    (t : Z) (st : slots) (d : gmap string pyval) :
  instrumental d = false →
  duration_match (duration_of d) t = Ok true →
  ∃ st', loop_body t st (PDict d) = Ok st'
    ∧ (truthy (synced_of d) = true →
       truthy (synced_duration_match st) = true →
       synced_duration_match st' = synced_duration_match st
       ∧ synced_any st'
         = if truthy (synced_any st) then synced_any st else synced_of d)
    ∧ (truthy (plain_of d) = true →
       truthy (plain_duration_match st) = true →
       plain_duration_match st' = plain_duration_match st
       ∧ plain_any st'
         = if truthy (plain_any st) then plain_any st else plain_of d).
Proof.
  intros Hi Hm. rewrite loop_body_dict, Hi, Hm. simpl.
  eexists. split; [reflexivity |].
  destruct st as [s1 s2 s3 s4]. unfold store_plain, store_synced. simpl.
  split.
  - intros Hs H1. rewrite Hs, H1. simpl.
    destruct (truthy s2) eqn:E2; simpl;
      destruct (truthy (plain_of d)); simpl;
      destruct (truthy s3); simpl;
      try (destruct (truthy s4); simpl); auto.
  - intros Hp H3. rewrite Hp.
    destruct (truthy (synced_of d)); simpl;
      destruct (truthy s1); simpl;
      try (destruct (truthy s2) eqn:E2; simpl);
      rewrite H3; simpl;
      destruct (truthy s4); simpl; auto.
Qed.

Lemma late_match_falls_through_witness :
  ∃ st', loop_body 180 (Slots (PStr "A") PNone PNone PNone) (PDict fields_synced_B)
         = Ok st'
    ∧ (truthy (synced_of fields_synced_B) = true →
       truthy (PStr "A") = true →
       synced_duration_match st' = PStr "A"
       ∧ synced_any st' = synced_of fields_synced_B)
    ∧ (truthy (plain_of fields_synced_B) = true →
       truthy PNone = true →
       plain_duration_match st' = PNone
       ∧ plain_any st' = plain_of fields_synced_B).
Proof.
  apply (late_match_falls_through 180 (Slots (PStr "A") PNone PNone PNone)
           fields_synced_B); reflexivity.
Defined.

(** *** Priority of the slots *)

Lemma store_plain_synced_slots (dm : bool) (v : pyval) (st : slots) :
  synced_duration_match (store_plain dm v st) = synced_duration_match st
  ∧ synced_any (store_plain dm v st) = synced_any st.
Proof.
  unfold store_plain.
  destruct (truthy v); [| done].
  destruct (dm && negb (truthy (plain_duration_match st))); [done |].
  by destruct (negb (truthy (plain_any st))).
Qed.

Lemma loop_body_match_total (t : Z) (st : slots) (d : gmap string pyval) :
  duration_match (duration_of d) t = Ok true →
  ∃ st', loop_body t st (PDict d) = Ok st'.
Proof.
  intros H. rewrite loop_body_dict, H.
  destruct (instrumental d); simpl; eauto.
Qed.

(** A record that does not qualify for slot 1 leaves it alone. *)
Lemma loop_body_slot1_unchanged (t : Z) (st st' : slots) (c : pyval) :
  loop_body t st c = Ok st' →
  (∀ d, c = PDict d → ¬ synced_match t d) →
  synced_duration_match st' = synced_duration_match st.
Proof.
  intros H Hno.
  apply loop_body_inv in H as (d & -> & [[_ ->] | (Hi & dm & Hdm & ->)]);
    [done |].
  rewrite (proj1 (store_plain_synced_slots _ _ _)).
  unfold store_synced.
  destruct (truthy (synced_of d)) eqn:Es; [| done].
  destruct dm; simpl.
  - destruct (Hno d eq_refl). by repeat split.
  - by destruct (negb (truthy (synced_any st))).
Qed.

Lemma run_loop_slot1_unchanged (t : Z) (pre : list pyval) :
  ∀ st st', run_loop t st pre = Ok st' →
    Forall (λ c, ∀ d, c = PDict d → ¬ synced_match t d) pre →
    synced_duration_match st' = synced_duration_match st.
Proof.
  induction pre as [| c pre IH]; intros st st' H Hno; simpl in H.
  - congruence.
  - destruct (loop_body t st c) as [st1 |] eqn:E; [| discriminate].
    simpl in H. inversion Hno as [| ? ? Hc Hpre]; subst.
    rewrite (IH _ _ H Hpre). by eapply loop_body_slot1_unchanged.
Qed.

(** A record that qualifies for slot 1 fills it when it is empty. *)
Lemma loop_body_fills_slot1 (t : Z) (st st' : slots) (d : gmap string pyval) :
  loop_body t st (PDict d) = Ok st' →
  synced_match t d →
  truthy (synced_duration_match st) = false →
  synced_duration_match st' = synced_of d.
Proof.
  intros H (Hi & Hs & Hm) He.
  rewrite loop_body_dict, Hi, Hm in H. simpl in H.
  injection H as <-.
  rewrite (proj1 (store_plain_synced_slots _ _ _)).
  unfold store_synced. by rewrite Hs, He.
Qed.

Lemma pick_slot1 (st : slots) :
  truthy (synced_duration_match st) = true → pick st = synced_duration_match st.
Proof.
  intros H. unfold pick.
  by rewrite !(py_or_truthy (synced_duration_match st)) by done.
Qed.

(** The synced text of the first record that qualifies for slot 1 is the
    result, whatever else the list holds. *)
Lemma first_synced_match_selected
    (t : Z) (pre post : list pyval) (a : gmap string pyval) (st : slots) :
  run_loop t empty_slots (pre ++ PDict a :: post) = Ok st →
  Forall (λ c, ∀ d, c = PDict d → ¬ synced_match t d) pre →
  synced_match t a →
  pick st = synced_of a.
Proof.
  intros H Hpre Ha. rewrite run_loop_app in H.
  destruct (run_loop t empty_slots pre) as [st1 |] eqn:E1; [| discriminate].
  simpl in H.
  destruct (loop_body t st1 (PDict a)) as [st2 |] eqn:E2; [| discriminate].
  simpl in H.
  pose proof (run_loop_slot1_unchanged _ _ _ _ E1 Hpre) as H1. simpl in H1.
  assert (synced_duration_match st2 = synced_of a) as H2.
  { eapply loop_body_fills_slot1; [exact E2 | exact Ha |]. by rewrite H1. }
  assert (truthy (synced_duration_match st2) = true) as Ht.
  { rewrite H2. apply Ha. }
  pose proof (run_loop_keeps _ _ Slot1 _ _ H Ht) as H3. simpl in H3.
  rewrite pick_slot1; congruence.
Qed.

(** C4: the result of [choose_best_result] is the first slot that is not
    empty among synced_duration_match, synced_any, plain_duration_match
    and plain_any, and "no result" ([None]) when all four are empty.  In
    particular the synced text of a record with synced text and a
    matching duration is returned whether a record with plain text and a
    matching duration comes before or after it; more generally, on a list
    of candidates the synced text of the first record that qualifies for
    slot 1 is returned. *)
Theorem result_is_first_nonempty_slot (results : list pyval) (t : Z) :
  choose_best_result results t
  = (st ← run_loop t empty_slots results; Ok (first_nonempty (slot_list st)))
  ∧ (∀ st : slots,
       run_loop t empty_slots results = Ok st →
       slot_list st = [PNone; PNone; PNone; PNone] →
       choose_best_result results t = Ok PNone)
  ∧ (∀ a b : gmap string pyval,
       synced_match t a → plain_match t b → truthy (synced_of b) = false →
       results = [PDict a; PDict b] ∨ results = [PDict b; PDict a] →
       choose_best_result results t = Ok (synced_of a))
  ∧ (∀ (pre post : list pyval) (a : gmap string pyval),
       results = pre ++ PDict a :: post →
       Forall (λ c, is_candidate c = true) results →
       Forall (λ c, ∀ d, c = PDict d → ¬ synced_match t d) pre →
       synced_match t a →
       choose_best_result results t = Ok (synced_of a)).
Proof.
  assert (choose_best_result results t
          = (st ← run_loop t empty_slots results;
             Ok (first_nonempty (slot_list st)))) as Hfirst.
  { unfold choose_best_result.
    destruct (run_loop t empty_slots results) as [st |] eqn:E; [| done].
    simpl. f_equal. apply pick_first_nonempty.
    eapply run_loop_ok; [exact E | apply empty_slots_ok]. }
  split; [exact Hfirst | split; [| split]].
  - intros st Hst Hempty. rewrite Hfirst, Hst.
    change (Ok (first_nonempty (slot_list st)) = Ok PNone). by rewrite Hempty.
  - intros a b Ha Hb Hsb Hres.
    assert (∃ st, run_loop t empty_slots results = Ok st) as [st Hst].
    { destruct Ha as (_ & _ & Hma), Hb as (_ & _ & Hmb).
      destruct Hres as [-> | ->]; simpl.
      - destruct (loop_body_match_total t empty_slots a Hma) as [s1 ->]. simpl.
        destruct (loop_body_match_total t s1 b Hmb) as [s2 ->]. simpl. eauto.
      - destruct (loop_body_match_total t empty_slots b Hmb) as [s1 ->]. simpl.
        destruct (loop_body_match_total t s1 a Hma) as [s2 ->]. simpl. eauto. }
    unfold choose_best_result. rewrite Hst. simpl. f_equal.
    destruct Hres as [-> | ->].
    + by apply (first_synced_match_selected t [] [PDict b] a).
    + apply (first_synced_match_selected t [PDict b] [] a); [done | | done].
      constructor; [| constructor].
      intros d [= <-] (_ & Hs & _). congruence.
  - intros pre post a -> Hc Hpre Ha.
    destruct (run_loop_total t _ Hc empty_slots) as [st Hst].
    unfold choose_best_result. rewrite Hst. simpl. f_equal.
    by eapply first_synced_match_selected.
Qed.

Lemma result_is_first_nonempty_slot_witness :
  choose_best_result [instrumental_X] 180 = Ok PNone
  ∧ choose_best_result [plain_B; synced_A] 180 = Ok (PStr "A")
  ∧ choose_best_result [plain_B; synced_A] 180 = Ok (synced_of fields_synced_A).
Proof.
  pose proof (result_is_first_nonempty_slot [plain_B; synced_A] 180)
    as (_ & _ & Horder & Hfirst).
  split; [| split].
  - apply (proj1 (proj2 (result_is_first_nonempty_slot [instrumental_X] 180))
             empty_slots); reflexivity.
  - apply (Horder fields_synced_A fields_plain_B).
    + repeat split; reflexivity.
    + repeat split; reflexivity.
    + reflexivity.
    + right. reflexivity.
  - apply (Hfirst [plain_B] [] fields_synced_A).
    + reflexivity.
    + repeat constructor.
    + constructor; [| constructor].
      intros d [= <-] (_ & Hs & _). discriminate Hs.
    + repeat split; reflexivity.
Defined.

(** *** Duration matching *)

Lemma truthy_as_int (v : pyval) (n : Z) :
  as_int v = Some n → truthy v = negb (n =? 0).
Proof. destruct v as [| [] | | | | |]; simpl; intros [= <-]; done. Qed.

Lemma duration_match_zero_target (v : pyval) : duration_match v 0 = Ok false.
Proof. unfold duration_match. simpl. by rewrite andb_false_r. Qed.

Lemma store_synced_no_match (v : pyval) (st : slots) :
  synced_duration_match (store_synced false v st) = synced_duration_match st.
Proof.
  unfold store_synced. simpl.
  destruct (truthy v); [| done]. by destruct (negb (truthy (synced_any st))).
Qed.

Lemma store_plain_no_match (v : pyval) (st : slots) :
  plain_duration_match (store_plain false v st) = plain_duration_match st.
Proof.
  unfold store_plain. simpl.
  destruct (truthy v); [| done]. by destruct (negb (truthy (plain_any st))).
Qed.

Lemma store_synced_plain_slots (dm : bool) (v : pyval) (st : slots) :
  plain_duration_match (store_synced dm v st) = plain_duration_match st
  ∧ plain_any (store_synced dm v st) = plain_any st.
Proof.
  unfold store_synced.
  destruct (truthy v); [| done].
  destruct (dm && negb (truthy (synced_duration_match st))); [done |].
  by destruct (negb (truthy (synced_any st))).
Qed.

Lemma run_loop_zero_target (results : list pyval) :
  ∀ st st', run_loop 0 st results = Ok st' →
    synced_duration_match st' = synced_duration_match st
    ∧ plain_duration_match st' = plain_duration_match st.
Proof.
  induction results as [| c rest IH]; intros st st' H; simpl in H.
  - by injection H as <-.
  - destruct (loop_body 0 st c) as [st1 |] eqn:E; [| discriminate].
    simpl in H. destruct (IH _ _ H) as [-> ->].
    apply loop_body_inv in E as (d & -> & [[_ ->] | (_ & dm & Hdm & ->)]);
      [done |].
    rewrite duration_match_zero_target in Hdm. injection Hdm as <-.
    rewrite (proj1 (store_plain_synced_slots _ _ _)), store_synced_no_match.
    rewrite store_plain_no_match, (proj1 (store_synced_plain_slots _ _ _)).
    done.
Qed.

(** On an [int] or [bool] duration the flag is computed exactly. *)
Lemma duration_match_int (v : pyval) (n t : Z) :
  as_int v = Some n →
  duration_match v t
  = Ok (negb (n =? 0) && negb (t =? 0) && (Z.abs (n - t) <=? 2)).
Proof.
  intros H. unfold duration_match. rewrite (truthy_as_int _ _ H). simpl.
  destruct (negb (n =? 0) && negb (t =? 0)) eqn:E; [| done].
  unfold py_sub. rewrite H. by destruct v.
Qed.

(** A duration that is no number never matches. *)
Lemma duration_match_not_number (v : pyval) (t : Z) :
  as_int v = None → (∀ f, v ≠ PFloat f) → duration_match v t ≠ Ok true.
Proof.
  intros H Hf. unfold duration_match, py_sub. rewrite H.
  destruct (truthy v && truthy (PInt t)); [| discriminate].
  destruct v; try discriminate. by destruct (Hf f).
Qed.

(** On a [float] duration the flag is computed in double precision. *)
Lemma duration_match_float (f : spec_float) (t : Z) :
  duration_match (PFloat f) t = Ok true
  ↔ truthy (PFloat f) = true ∧ t ≠ 0
    ∧ ∃ g, int_to_float t = Ok g
         ∧ float_le_int (SFabs (SFsub prec emax f g)) 2 = true.
Proof.
  unfold duration_match, py_sub, DURATION_TOLERANCE.
  destruct (truthy (PFloat f)) eqn:Ef; simpl;
    [| split; [discriminate | by intros [? _]]].
  destruct (Z.eqb_spec t 0) as [-> | Ht]; simpl;
    [split; [discriminate | by intros (_ & ? & _)] |].
  destruct (int_to_float t) as [g | e]; simpl.
  - split.
    + intros [= H]. repeat split; try done. by exists g.
    + intros (_ & _ & g' & [= <-] & H). by rewrite H.
  - split; [discriminate | intros (_ & _ & g' & [=] & _)].
Qed.

(** C5, as stated, fails on a float duration: the flag is computed on the
    double-precision difference, and for the duration 0.9999999999999999
    and the target 3 that difference is exactly -2 although the two
    differ by more than 2. *)
Lemma float_match_beyond_tolerance :
  ¬ (∀ (d : gmap string pyval) (t : Z),
        duration_match (duration_of d) t = Ok true
        ↔ ∃ q, number_value (duration_of d) = Some q
             ∧ ¬ (q == inject_Z 0)%Q ∧ t ≠ 0
             ∧ (Qabs (q - inject_Z t) <= inject_Z 2)%Q).
Proof.
  intros H.
  destruct (proj1 (H fields_almost_one 3) eq_refl) as (q & Hq & _ & _ & Hle).
  injection Hq as <-. vm_compute in Hle. by destruct Hle.
Qed.

(** C5, amended: for a candidate record [d] whose duration is not a
    float, the flag duration_match is true exactly when the duration is
    an integer (or a bool) that is not zero, the target is not zero and
    the two differ by at most 2.  For a float duration the flag is true
    exactly when the duration is not zero, the target is not zero and
    converts to a double, and the double-precision difference of the two
    is at most 2 in absolute value.  With target 0 the flag is false for
    every record, and a pass of the loop leaves slots 1 and 3 empty, so
    that only synced_any and plain_any can be filled. *)
Theorem duration_match_exact_on_integers (d : gmap string pyval) (t : Z) :
  ((∀ f, duration_of d ≠ PFloat f) →
   (duration_match (duration_of d) t = Ok true
    ↔ ∃ n, as_int (duration_of d) = Some n
         ∧ n ≠ 0 ∧ t ≠ 0 ∧ Z.abs (n - t) ≤ 2))
  ∧ (∀ f, duration_of d = PFloat f →
       (duration_match (duration_of d) t = Ok true
        ↔ truthy (PFloat f) = true ∧ t ≠ 0
          ∧ ∃ g, int_to_float t = Ok g
               ∧ float_le_int (SFabs (SFsub prec emax f g)) 2 = true))
  ∧ duration_match (duration_of d) 0 = Ok false
  ∧ (∀ (results : list pyval) (st : slots),
       run_loop 0 empty_slots results = Ok st →
       synced_duration_match st = PNone ∧ plain_duration_match st = PNone).
Proof.
  split; [| split; [| split]].
  - intros Hf.
    destruct (as_int (duration_of d)) as [n |] eqn:En.
    + rewrite (duration_match_int _ n t En).
      destruct (Z.eqb_spec n 0) as [-> | Hn]; simpl.
      * split; [discriminate | intros (m & [= <-] & Hm & _); done].
      * destruct (Z.eqb_spec t 0) as [-> | Ht]; simpl.
        -- split; [discriminate | intros (m & _ & _ & Hm & _); done].
        -- destruct (Z.leb_spec (Z.abs (n - t)) 2) as [Hle | Hgt].
           ++ split; [| done]. intros _. by exists n.
           ++ split; [discriminate |]. intros (m & [= <-] & _ & _ & Hle). lia.
    + split; [| intros (m & [=] & _)].
      intros H. by destruct (duration_match_not_number _ t En Hf).
  - intros f ->. apply duration_match_float.
  - apply duration_match_zero_target.
  - intros results st H. by apply run_loop_zero_target in H.
Qed.

Lemma duration_match_exact_on_integers_witness :
  duration_match (duration_of fields_synced_A) 182 = Ok true
  ∧ (∃ n, as_int (duration_of fields_synced_B) = Some n
        ∧ n ≠ 0 ∧ 180 ≠ 0 ∧ Z.abs (n - 180) ≤ 2)
  ∧ duration_match (duration_of fields_float_near) 180 = Ok true
  ∧ ¬ (truthy (PFloat float_177_5) = true ∧ 180 ≠ 0
       ∧ ∃ g, int_to_float 180 = Ok g
            ∧ float_le_int (SFabs (SFsub prec emax float_177_5 g)) 2 = true)
  ∧ synced_duration_match (Slots PNone (PStr "A") PNone PNone) = PNone
  ∧ plain_duration_match (Slots PNone (PStr "A") PNone PNone) = PNone.
Proof.
  split; [| split; [| split; [| split]]].
  - apply (proj1 (duration_match_exact_on_integers fields_synced_A 182)).
    + intros f. discriminate.
    + exists 180. repeat split; [discriminate | discriminate | simpl; lia].
  - apply (proj1 (duration_match_exact_on_integers fields_synced_B 180)).
    + intros f. discriminate.
    + reflexivity.
  - apply (proj1 (proj2 (duration_match_exact_on_integers fields_float_near 180))
             float_181_5 eq_refl).
    split; [reflexivity | split; [discriminate |]].
    eexists. split; reflexivity.
  - intros H.
    apply (proj1 (proj2 (duration_match_exact_on_integers fields_float_far 180))
             float_177_5 eq_refl) in H.
    discriminate H.
  - apply (proj2 (proj2 (proj2 (duration_match_exact_on_integers fields_synced_A 0)))
             [synced_A]).
    reflexivity.
Defined.

(** *** First wins *)

(** C6: a slot that is filled is never overwritten during the pass; the
    value a slot holds at the end is the one stored by the first record,
    in list order, that filled it, whatever records come later.  Here
    [pre] are the records before [c], [st1] the slots before [c] is
    processed, [st2] the slots after it and [st] the slots at the end. *)
Theorem first_wins
    (t : Z) (i : slot_id) (pre post : list pyval) (c : pyval)
    (st1 st2 st : slots) :
  run_loop t empty_slots pre = Ok st1 →
  loop_body t st1 c = Ok st2 →
  run_loop t st2 post = Ok st →
  run_loop t empty_slots (pre ++ c :: post) = Ok st
  ∧ (slot_of i st1 ≠ PNone →
     slot_of i st2 = slot_of i st1 ∧ slot_of i st = slot_of i st1)
  ∧ (slot_of i st1 = PNone → slot_of i st2 ≠ PNone →
     slot_of i st = slot_of i st2
     ∧ ∃ d, c = PDict d ∧ instrumental d = false
          ∧ (slot_of i st2 = synced_of d ∨ slot_of i st2 = plain_of d)).
Proof.
  intros H1 H2 H3.
  assert (slots_ok st1) as Hok1
    by (eapply run_loop_ok; [exact H1 | apply empty_slots_ok]).
  assert (slots_ok st2) as Hok2 by (by eapply loop_body_ok).
  assert (∀ s, slots_ok s → slot_of i s ≠ PNone → truthy (slot_of i s) = true)
    as Hfilled.
  { intros s (Ha & Hb & Hc & Hd) Hne.
    destruct i; simpl in *;
      match goal with
      | H : slot_ok ?v |- truthy ?v = true => by destruct H
      end. }
  split; [| split].
  - rewrite run_loop_app, H1. simpl. by rewrite H2.
  - intros Hne. pose proof (Hfilled _ Hok1 Hne) as Ht.
    pose proof (loop_body_keeps _ _ _ _ i H2 Ht) as E2.
    split; [done |].
    rewrite <- E2. apply (run_loop_keeps _ _ i _ _ H3). congruence.
  - intros He Hne. pose proof (Hfilled _ Hok2 Hne) as Ht.
    split; [by apply (run_loop_keeps _ _ i _ _ H3) |].
    destruct (loop_body_source _ _ _ _ i H2) as [Heq | (d & -> & Hi & _ & Hs)].
    + congruence.
    + by exists d.
Qed.

Lemma first_wins_witness :
  run_loop 180 empty_slots ([] ++ synced_A :: [synced_B])
  = Ok (Slots (PStr "A") (PStr "B") PNone PNone)
  ∧ (PNone ≠ PNone → PStr "A" = PNone ∧ PStr "A" = PNone)
  ∧ (PNone = PNone → PStr "A" ≠ PNone →
     PStr "A" = PStr "A"
     ∧ ∃ d, synced_A = PDict d ∧ instrumental d = false
          ∧ (PStr "A" = synced_of d ∨ PStr "A" = plain_of d)).
Proof.
  apply (first_wins 180 Slot1 [] [synced_B] synced_A empty_slots
           (Slots (PStr "A") PNone PNone PNone)
           (Slots (PStr "A") (PStr "B") PNone PNone)); reflexivity.
Defined.

(** *** Instrumental records *)

Lemma run_loop_filter_skipped (t : Z) (results : list pyval) :
  ∀ st, run_loop t st (List.filter (λ c, negb (skipped c)) results)
        = run_loop t st results.
Proof.
  induction results as [| c rest IH]; intros st; simpl; [done |].
  destruct (skipped c) eqn:Ec; simpl.
  - rewrite (loop_body_skipped _ _ _ Ec). simpl. apply IH.
  - destruct (loop_body t st c) as [st1 |]; simpl; [apply IH | done].
Qed.

Lemma run_loop_all_skipped (t : Z) (results : list pyval) :
  Forall (λ c, skipped c = true) results →
  ∀ st, run_loop t st results = Ok st.
Proof.
  induction 1 as [| c rest Hc _ IH]; intros st; simpl; [done |].
  rewrite (loop_body_skipped _ _ _ Hc). simpl. apply IH.
Qed.

(** C7: a record whose instrumental flag is set never contributes to the
    result: the iteration on it changes no slot, the result is the same
    as on the list with all such records removed, and on a list that
    holds such records only the result is "no result" ([None]). *)
Theorem instrumental_never_contributes (results : list pyval) (t : Z) :
  (∀ (st : slots) (c : pyval), skipped c = true → loop_body t st c = Ok st)
  ∧ choose_best_result (List.filter (λ c, negb (skipped c)) results) t
    = choose_best_result results t
  ∧ (Forall (λ c, skipped c = true) results →
     choose_best_result results t = Ok PNone).
Proof.
  split; [| split].
  - intros st c. apply loop_body_skipped.
  - unfold choose_best_result. by rewrite run_loop_filter_skipped.
  - intros H. unfold choose_best_result.
    by rewrite (run_loop_all_skipped t results H).
Qed.

Lemma instrumental_never_contributes_witness :
  loop_body 180 (Slots PNone (PStr "A") PNone PNone) instrumental_X
  = Ok (Slots PNone (PStr "A") PNone PNone)
  ∧ choose_best_result [instrumental_X; instrumental_X] 180 = Ok PNone.
Proof.
  split.
  - apply (proj1 (instrumental_never_contributes [] 180)). reflexivity.
  - apply (proj2 (proj2 (instrumental_never_contributes
                           [instrumental_X; instrumental_X] 180))).
    repeat constructor.
Defined.

(** *** The selected text *)

Lemma dict_get_delete_ne (d : gmap string pyval) (k k' : string) :
  k ≠ k' → dict_get (delete k d) k' = dict_get d k'.
Proof. intros H. unfold dict_get. by rewrite lookup_delete_ne. Qed.

Lemma dict_get_drop_empty_ne (d : gmap string pyval) (k k' : string) :
  k ≠ k' → dict_get (drop_empty k d) k' = dict_get d k'.
Proof.
  intros H. unfold drop_empty.
  destruct (d !! k) as [[| | | | [|] | |] |]; try done.
  by apply dict_get_delete_ne.
Qed.

(** At its own key [drop_empty] changes the empty text into [None], and
    nothing else. *)
Lemma dict_get_drop_empty_eq (d : gmap string pyval) (k : string) :
  dict_get (drop_empty k d) k = dict_get d k
  ∨ (dict_get d k = PStr EmptyString ∧ dict_get (drop_empty k d) k = PNone).
Proof.
  unfold drop_empty, dict_get.
  destruct (d !! k) as [[| | | | [|] | |] |] eqn:E; rewrite ?E; auto.
  right. by rewrite lookup_delete_eq.
Qed.

Lemma store_synced_falsy (dm : bool) (v : pyval) (st : slots) :
  truthy v = false → store_synced dm v st = st.
Proof. unfold store_synced. by intros ->. Qed.

Lemma store_plain_falsy (dm : bool) (v : pyval) (st : slots) :
  truthy v = false → store_plain dm v st = st.
Proof. unfold store_plain. by intros ->. Qed.

Lemma loop_body_drop_empty_text (t : Z) (st : slots) (c : pyval) :
  loop_body t st (drop_empty_text c) = loop_body t st c.
Proof.
  destruct c as [| | | | | | d]; try reflexivity.
  unfold drop_empty_text. rewrite !loop_body_dict.
  unfold instrumental, duration_of, synced_of, plain_of.
  rewrite (dict_get_drop_empty_ne _ "plainLyrics" "instrumental") by done.
  rewrite (dict_get_drop_empty_ne _ "plainLyrics" "duration") by done.
  rewrite (dict_get_drop_empty_ne _ "plainLyrics" "syncedLyrics") by done.
  rewrite (dict_get_drop_empty_ne _ "syncedLyrics" "instrumental") by done.
  rewrite (dict_get_drop_empty_ne _ "syncedLyrics" "duration") by done.
  destruct (truthy (dict_get d "instrumental")); [done |].
  destruct (duration_match (dict_get d "duration") t) as [dm |]; [| done].
  simpl. f_equal.
  assert (store_synced dm (dict_get (drop_empty "syncedLyrics" d) "syncedLyrics") st
          = store_synced dm (dict_get d "syncedLyrics") st) as ->.
  { destruct (dict_get_drop_empty_eq d "syncedLyrics") as [-> | [-> ->]]; [done |].
    by rewrite !store_synced_falsy. }
  set (d' := drop_empty "syncedLyrics" d).
  destruct (dict_get_drop_empty_eq d' "plainLyrics") as [-> | [He ->]].
  - subst d'. by rewrite dict_get_drop_empty_ne.
  - subst d'. rewrite dict_get_drop_empty_ne in He by done. rewrite He.
    by rewrite !store_plain_falsy.
Qed.

Lemma run_loop_drop_empty_text (t : Z) (results : list pyval) :
  ∀ st, run_loop t st (map drop_empty_text results) = run_loop t st results.
Proof.
  induction results as [| c rest IH]; intros st; simpl; [done |].
  rewrite loop_body_drop_empty_text.
  destruct (loop_body t st c) as [st1 |]; simpl; [apply IH | done].
Qed.

Lemma candidate_text (results : list pyval) (d : gmap string pyval) (v : pyval) :
  Forall (λ c, is_candidate c = true) results →
  PDict d ∈ results →
  synced_of d = v ∨ plain_of d = v →
  truthy v = true →
  ∃ s, v = PStr s ∧ s ≠ EmptyString.
Proof.
  intros Hc Hin Hv Ht.
  rewrite Forall_forall in Hc. specialize (Hc _ Hin). simpl in Hc.
  apply andb_prop in Hc as [Hc Hp]. apply andb_prop in Hc as [_ Hs].
  destruct Hv as [<- | <-].
  - destruct (synced_of d) as [| | | | s | |]; try done.
    exists s. split; [done |]. by intros ->.
  - destruct (plain_of d) as [| | | | s | |]; try done.
    exists s. split; [done |]. by intros ->.
Qed.

(** C10: whenever [choose_best_result] returns a result other than "no
    result" ([None]), the result tests true, is not the empty text and is
    the syncedLyrics or the plainLyrics field of a record of the list
    that is not instrumental; on a list of candidates it is a text that
    is not empty.  A lyrics field holding the empty text is treated as
    absent: removing such fields from the records changes nothing. *)
Theorem selected_text_is_nonempty_field (results : list pyval) (t : Z) :
  choose_best_result (map drop_empty_text results) t
  = choose_best_result results t
  ∧ (∀ v : pyval,
       choose_best_result results t = Ok v →
       v ≠ PNone →
       truthy v = true
       ∧ v ≠ PStr EmptyString
       ∧ (∃ d, PDict d ∈ results ∧ instrumental d = false
             ∧ (synced_of d = v ∨ plain_of d = v))
       ∧ (Forall (λ c, is_candidate c = true) results →
          ∃ s, v = PStr s ∧ s ≠ EmptyString)).
Proof.
  split.
  - unfold choose_best_result. by rewrite run_loop_drop_empty_text.
  - intros v H Hne.
    destruct (choose_best_result_source _ _ _ H) as [-> | (Ht & d & Hin & Hi & Hv)];
      [done |].
    split; [done |]. split; [by intros -> |].
    split; [by exists d |].
    intros Hc. by eapply candidate_text.
Qed.

Lemma selected_text_is_nonempty_field_witness :
  truthy (PStr "C") = true
  ∧ PStr "C" ≠ PStr EmptyString
  ∧ (∃ d, PDict d ∈ [instrumental_X; plain_C] ∧ instrumental d = false
        ∧ (synced_of d = PStr "C" ∨ plain_of d = PStr "C"))
  ∧ (Forall (λ c, is_candidate c = true) [instrumental_X; plain_C] →
     ∃ s, PStr "C" = PStr s ∧ s ≠ EmptyString).
Proof.
  apply (proj2 (selected_text_is_nonempty_field [instrumental_X; plain_C] 100)).
  - reflexivity.
  - discriminate.
Defined.

(** ** The glue, path by path *)

Lemma response_transport_error_path (w : world) (data error : pyval) :
  truthy error = true →
  process_response data error w
  = (Returned,
     World (requests w - 1) (S (finalize_calls w)) (webservice w) (metadata w)
       (logged w ++ [LogError MsgRequestFailed])).
Proof. intros H. run_glue. by rewrite H. Qed.

Lemma response_not_list_path (w : world) (data error : pyval) :
  truthy error = false →
  (∀ l, data ≠ PList l) →
  process_response data error w
  = (Returned,
     World (requests w - 1) (S (finalize_calls w)) (webservice w) (metadata w)
       (logged w ++ [LogError (MsgUnexpectedResponse data)])).
Proof.
  intros H Hd. run_glue. rewrite H.
  destruct data as [| | | | | l |]; try reflexivity. by destruct (Hd l).
Qed.

Lemma response_parse_error_path
    (w : world) (results : list pyval) (error : pyval) (e : exn) :
  truthy error = false →
  target_of w = Raise e →
  process_response (PList results) error w
  = (Normal tt,
     World (requests w - 1) (S (finalize_calls w)) (webservice w) (metadata w)
       (logged w ++ [LogError (MsgProcessingError e)])).
Proof. intros H Hp. run_glue. by rewrite H, Hp. Qed.

Lemma response_selector_error_path
    (w : world) (results : list pyval) (error : pyval) (t : Z) (e : exn) :
  truthy error = false →
  target_of w = Ok t →
  choose_best_result results t = Raise e →
  process_response (PList results) error w
  = (Normal tt,
     World (requests w - 1) (S (finalize_calls w)) (webservice w) (metadata w)
       ((logged w ++ [LogDebug (MsgProcessing (length results))])
        ++ [LogError (MsgProcessingError e)])).
Proof. intros H Hp Hc. run_glue. by rewrite H, Hp, Hc. Qed.

Lemma response_lyrics_path
    (w : world) (results : list pyval) (error : pyval) (t : Z) (v : pyval) :
  truthy error = false →
  target_of w = Ok t →
  choose_best_result results t = Ok v →
  truthy v = true →
  process_response (PList results) error w
  = (Normal tt,
     World (requests w - 1) (S (finalize_calls w)) (webservice w)
       (<["lyrics" := v]> (metadata w))
       ((logged w ++ [LogDebug (MsgProcessing (length results))])
        ++ [LogDebug MsgAttached])).
Proof. intros H Hp Hc Hv. run_glue. by rewrite H, Hp, Hc, Hv. Qed.

Lemma response_no_lyrics_path
    (w : world) (results : list pyval) (error : pyval) (t : Z) (v : pyval) :
  truthy error = false →
  target_of w = Ok t →
  choose_best_result results t = Ok v →
  truthy v = false →
  process_response (PList results) error w
  = (Normal tt,
     World (requests w - 1) (S (finalize_calls w)) (webservice w) (metadata w)
       ((logged w ++ [LogDebug (MsgProcessing (length results))])
        ++ [LogDebug MsgNoLyrics])).
Proof. intros H Hp Hc Hv. run_glue. by rewrite H, Hp, Hc, Hv. Qed.

Lemma response_path_cases (w : world) (data error : pyval) :
  response_path w data error.
Proof.
  destruct (truthy error) eqn:He; [by apply TransportError |].
  destruct data as [| | | | | results |];
    try (apply NotAList; [done | intros l; discriminate]).
  destruct (target_of w) as [t | e] eqn:Ht;
    [| by eapply ParseError].
  destruct (choose_best_result results t) as [v | e] eqn:Hc;
    [| by eapply SelectorError].
  destruct (truthy v) eqn:Hv; [by eapply LyricsFound | by eapply NoLyrics].
Qed.

(** ** Claims about the glue *)

(** C2, as stated, fails: it is not the case that a payload that is not
    a list leaves the in-flight counter and the count of finalizations as
    they were.  The [return] sits inside the [try] whose [finally]
    releases the counter. *)
Lemma not_list_counter_released :
  ¬ (∀ (w : world) (data : pyval),
        (∀ l, data ≠ PList l) →
        requests (run (process_response data PNone) w) = requests w
        ∧ finalize_calls (run (process_response data PNone) w)
          = finalize_calls w).
Proof.
  intros H.
  destruct (H (idle ∅) PNone) as [Hr _]; [intros l; discriminate |].
  vm_compute in Hr. discriminate Hr.
Qed.

(** C2, amended: when there is no transport error and the decoded payload
    is not a list, [process_response] logs an error and returns early,
    leaves the metadata untouched, and its [finally] clause releases the
    in-flight counter once and finalizes loading once. *)
Theorem not_list_logs_and_releases (w : world) (data error : pyval) :
  truthy error = false →
  (∀ l, data ≠ PList l) →
  run (process_response data error) w
  = World (requests w - 1) (S (finalize_calls w)) (webservice w) (metadata w)
      (logged w ++ [LogError (MsgUnexpectedResponse data)]).
Proof.
  intros H Hd. unfold run. by rewrite response_not_list_path.
Qed.

Lemma not_list_logs_and_releases_witness :
  run (process_response (PStr "oops") PNone) (idle ∅)
  = World (1 - 1) 1 [] ∅ ([] ++ [LogError (MsgUnexpectedResponse (PStr "oops"))]).
Proof.
  apply (not_list_logs_and_releases (idle ∅) (PStr "oops") PNone).
  - reflexivity.
  - intros l. discriminate.
Defined.

(** C3 fails on the code for a malformed length: the length "?:??" makes
    [int] raise inside the [try] of [process_response], the selector is
    not run and no lyrics are attached, although the selector run with
    target 0 returns the text "C" and a missing length (default "0:0")
    does attach it.  [process_track], for its part, falls back to [None]
    on the same length and still dispatches the request. *)
Theorem malformed_length_blocks_selection :
  target_of (idle unknown_length) = Raise ValueError
  ∧ run (process_response (PList [plain_C]) PNone) (idle unknown_length)
    = World 0 1 [] unknown_length [LogError (MsgProcessingError ValueError)]
  ∧ choose_best_result [plain_C] 0 = Ok (PStr "C")
  ∧ target_of (idle ∅) = Ok 0
  ∧ run (process_response (PList [plain_C]) PNone) (idle ∅)
    = World 0 1 [] (<["lyrics" := PStr "C"]> ∅)
        [LogDebug (MsgProcessing 1); LogDebug MsgAttached]
  ∧ (track_duration (idle unknown_length)).1 = Normal PNone
  ∧ length (webservice (run process_track (idle unknown_length))) = 1%nat.
Proof. vm_compute. repeat split; reflexivity. Qed.

(** The same for every length that fails to parse. *)
Lemma parse_error_skips_selection
    (w : world) (results : list pyval) (error : pyval) (e : exn) :
  truthy error = false →
  target_of w = Raise e →
  run (process_response (PList results) error) w
  = World (requests w - 1) (S (finalize_calls w)) (webservice w) (metadata w)
      (logged w ++ [LogError (MsgProcessingError e)]).
Proof. intros H Hp. unfold run. by rewrite (response_parse_error_path _ _ _ e). Qed.

(** A missing length is read as "0:0": the selector runs with target 0. *)
Lemma missing_length_target (w : world) :
  metadata w !! "~length" = None → target_of w = Ok 0.
Proof. unfold target_of. by intros ->. Qed.

Lemma process_response_effect (w : world) (data error : pyval) :
  requests (run (process_response data error) w) = requests w - 1
  ∧ finalize_calls (run (process_response data error) w) = S (finalize_calls w)
  ∧ webservice (run (process_response data error) w) = webservice w
  ∧ ∀ e, (process_response data error w).1 ≠ Raised e.
Proof.
  unfold run.
  destruct (response_path_cases w data error)
    as [He | He Hd | rs e He -> Hp | rs t e He -> Hp Hc
        | rs t v He -> Hp Hc Hv | rs t v He -> Hp Hc Hv].
  - by rewrite response_transport_error_path.
  - by rewrite response_not_list_path.
  - by rewrite (response_parse_error_path _ _ _ e).
  - by rewrite (response_selector_error_path _ _ _ t e).
  - by rewrite (response_lyrics_path _ _ _ t v).
  - by rewrite (response_no_lyrics_path _ _ _ t v).
Qed.

Lemma process_track_effect (w : world) :
  ∃ r : request,
    process_track w
    = (Normal tt,
       World (requests w + 1) (finalize_calls w) (webservice w ++ [r])
         (metadata w) (logged w ++ [LogDebug (MsgQuerying (queryargs r))]))
    ∧ url r = API_URL
    ∧ queryargs r !! "artist_name" = Some (dict_get (metadata w) "artist")
    ∧ queryargs r !! "track_name" = Some (dict_get (metadata w) "title").
Proof.
  eexists (Request API_URL "json" _).
  unfold process_track, track_duration, try_except, metadata_get_default,
    metadata_get, get_url, log_debug, write_log, add_requests, eval,
    mbind, M_bind, mret, M_ret. simpl.
  destruct (parse_length (default (PStr "0:0") (metadata w !! "~length")));
    simpl; (split; [reflexivity |]); split; try done;
    by rewrite ?lookup_insert_eq, ?lookup_insert_ne, ?lookup_insert_eq.
Qed.

(** C8: [process_track] hands exactly one request to the web service and
    increments the in-flight counter exactly once; [process_response]
    decrements it exactly once and finalizes loading exactly once for
    every payload and every error value, that is on every path: lyrics
    found or not, transport error, exception during processing.  No
    exception leaves either function, and a dispatch followed by its
    response leaves the counter where it was. *)
Theorem counter_balanced (w : world) (data error : pyval) :
  (requests (run process_track w) = requests w + 1
   ∧ length (webservice (run process_track w)) = S (length (webservice w))
   ∧ finalize_calls (run process_track w) = finalize_calls w
   ∧ (process_track w).1 = Normal tt)
  ∧ (requests (run (process_response data error) w) = requests w - 1
     ∧ finalize_calls (run (process_response data error) w)
       = S (finalize_calls w)
     ∧ webservice (run (process_response data error) w) = webservice w
     ∧ ∀ e, (process_response data error w).1 ≠ Raised e)
  ∧ (requests (run (process_response data error) (run process_track w))
     = requests w
     ∧ finalize_calls (run (process_response data error) (run process_track w))
       = S (finalize_calls w)).
Proof.
  split; [| split].
  - unfold run. destruct (process_track_effect w) as (r & -> & _). simpl.
    rewrite length_app. simpl. repeat split; lia.
  - apply process_response_effect.
  - destruct (process_response_effect (run process_track w) data error)
      as (-> & -> & _).
    unfold run. destruct (process_track_effect w) as (r & -> & _).
    simpl. split; [lia | done].
Qed.

Lemma choose_best_result_ok (results : list pyval) (t : Z) (v : pyval) :
  choose_best_result results t = Ok v → slot_ok v.
Proof.
  intros H. apply choose_best_result_inv in H as (st & _ & Hok & ->).
  by apply pick_ok.
Qed.

(** The metadata after a response: unchanged, or with the selected value
    under "lyrics". *)
Lemma response_metadata (w : world) (data error : pyval) :
  metadata (run (process_response data error) w) = metadata w
  ∨ ∃ results t v,
      truthy error = false ∧ data = PList results ∧ target_of w = Ok t
      ∧ choose_best_result results t = Ok v ∧ truthy v = true
      ∧ metadata (run (process_response data error) w)
        = <["lyrics" := v]> (metadata w).
Proof.
  unfold run.
  destruct (response_path_cases w data error)
    as [He | He Hd | rs e He -> Hp | rs t e He -> Hp Hc
        | rs t v He -> Hp Hc Hv | rs t v He -> Hp Hc Hv].
  - left. by rewrite response_transport_error_path.
  - left. by rewrite response_not_list_path.
  - left. by rewrite (response_parse_error_path _ _ _ e).
  - left. by rewrite (response_selector_error_path _ _ _ t e).
  - right. exists rs, t, v. by rewrite (response_lyrics_path _ _ _ t v).
  - left. by rewrite (response_no_lyrics_path _ _ _ t v).
Qed.

(** C9: [process_response] writes no metadata field other than "lyrics",
    and writes that one only when the selector returns a value, which it
    stores as it is (on a list of candidates: a text); the metadata
    is left as it was on a transport error, on a payload that is not a
    list and when the selector returns "no result" ([None]). *)
Theorem metadata_written_only_with_lyrics (w : world) (data error : pyval) :
  (∀ k : string,
     k ≠ "lyrics" →
     metadata (run (process_response data error) w) !! k = metadata w !! k)
  ∧ (metadata (run (process_response data error) w) = metadata w
     ∨ ∃ results t v,
         truthy error = false ∧ data = PList results ∧ target_of w = Ok t
         ∧ choose_best_result results t = Ok v ∧ v ≠ PNone
         ∧ metadata (run (process_response data error) w)
           = <["lyrics" := v]> (metadata w))
  ∧ (truthy error = true →
     metadata (run (process_response data error) w) = metadata w)
  ∧ ((∀ l, data ≠ PList l) →
     metadata (run (process_response data error) w) = metadata w)
  ∧ (∀ results t,
       data = PList results → target_of w = Ok t →
       choose_best_result results t = Ok PNone →
       metadata (run (process_response data error) w) = metadata w)
  ∧ (∀ results t v,
       truthy error = false → data = PList results → target_of w = Ok t →
       choose_best_result results t = Ok v → v ≠ PNone →
       metadata (run (process_response data error) w)
       = <["lyrics" := v]> (metadata w)
       ∧ (Forall (λ c, is_candidate c = true) results →
          ∃ s, v = PStr s ∧ s ≠ EmptyString)).
Proof.
  split; [| split; [| split; [| split; [| split]]]].
  - intros k Hk.
    destruct (response_metadata w data error)
      as [-> | (rs & t & v & _ & _ & _ & _ & _ & ->)]; [done |].
    by rewrite lookup_insert_ne.
  - destruct (response_metadata w data error)
      as [-> | (rs & t & v & He & Hd & Hp & Hc & Hv & ->)]; [by left |].
    right. exists rs, t, v. repeat split; try done.
    by apply truthy_not_none.
  - intros He. unfold run. by rewrite response_transport_error_path.
  - intros Hd. unfold run.
    destruct (truthy error) eqn:He.
    + by rewrite response_transport_error_path.
    + by rewrite response_not_list_path.
  - intros rs t -> Hp Hc. unfold run.
    destruct (truthy error) eqn:He.
    + by rewrite response_transport_error_path.
    + by rewrite (response_no_lyrics_path _ _ _ t PNone).
  - intros rs t v He -> Hp Hc Hne.
    assert (truthy v = true) as Hv.
    { by destruct (choose_best_result_ok _ _ _ Hc). }
    split.
    + unfold run. by rewrite (response_lyrics_path _ _ _ t v).
    + intros Hcand.
      destruct (choose_best_result_source _ _ _ Hc)
        as [-> | (_ & d & Hin & _ & Hs)]; [done |].
      by eapply candidate_text.
Qed.

Lemma metadata_written_only_with_lyrics_witness :
  metadata (run (process_response (PList [plain_C]) PNone) (idle ∅))
  = <["lyrics" := PStr "C"]> ∅
  ∧ metadata (run (process_response (PList [instrumental_X]) PNone) (idle ∅)) = ∅
  ∧ metadata (run (process_response (PList [plain_C]) (PInt 3)) (idle ∅)) = ∅
  ∧ metadata (run (process_response PNone PNone) (idle ∅)) = ∅
  ∧ metadata (run (process_response (PList [plain_C]) PNone) (idle unknown_length))
      !! "~length" = Some (PStr "?:??").
Proof.
  split; [| split; [| split; [| split]]].
  - apply (proj2 (proj2 (proj2 (proj2 (proj2
             (metadata_written_only_with_lyrics
                (idle ∅) (PList [plain_C]) PNone)))))
             [plain_C] 0 (PStr "C")); try reflexivity.
    discriminate.
  - apply (proj1 (proj2 (proj2 (proj2 (proj2
             (metadata_written_only_with_lyrics
                (idle ∅) (PList [instrumental_X]) PNone)))))
             [instrumental_X] 0); reflexivity.
  - apply (proj1 (proj2 (proj2
             (metadata_written_only_with_lyrics
                (idle ∅) (PList [plain_C]) (PInt 3))))).
    reflexivity.
  - apply (proj1 (proj2 (proj2 (proj2
             (metadata_written_only_with_lyrics (idle ∅) PNone PNone))))).
    intros l. discriminate.
  - rewrite (proj1 (metadata_written_only_with_lyrics
                      (idle unknown_length) (PList [plain_C]) PNone)
               "~length"); [reflexivity | discriminate].
Defined.

(** * Further properties of the selector *)

(** ** What each slot holds at the end of the loop *)

Lemma first_text_ok (p : gmap string pyval → bool) (f : gmap string pyval → pyval)
    (results : list pyval) :
  slot_ok (first_text p f results).
Proof.
  induction results as [| c rest IH]; simpl; [by left |].
  destruct c; try done.
  destruct (instrumental d); simpl; [done |].
  destruct (truthy (f d)) eqn:E; simpl; [| done].
  destruct (p d); [by right | done].
Qed.

(** The record the search stops at. *)
Lemma first_text_source (p : gmap string pyval → bool)
    (f : gmap string pyval → pyval) (results : list pyval) :
  first_text p f results = PNone
  ∨ ∃ d, PDict d ∈ results ∧ instrumental d = false
       ∧ truthy (f d) = true ∧ p d = true
       ∧ first_text p f results = f d.
Proof.
  induction results as [| c rest IH]; simpl; [by left |].
  assert (first_text p f rest = PNone
          ∨ ∃ d, PDict d ∈ c :: rest ∧ instrumental d = false
               ∧ truthy (f d) = true ∧ p d = true
               ∧ first_text p f rest = f d) as IH'.
  { destruct IH as [-> | (d & Hin & Hd)]; [by left |].
    right. exists d. split; [by right | done]. }
  destruct c; try done.
  destruct (instrumental d) eqn:Ei; simpl; [done |].
  destruct (truthy (f d)) eqn:Et; simpl; [| done].
  destruct (p d) eqn:Ep; [| done].
  right. exists d. split; [by left | done].
Qed.

(** The search finds a text when a record qualifies. *)
Lemma first_text_found (p : gmap string pyval → bool)
    (f : gmap string pyval → pyval) (results : list pyval) (d : gmap string pyval) :
  PDict d ∈ results → instrumental d = false →
  truthy (f d) = true → p d = true →
  truthy (first_text p f results) = true.
Proof.
  intros Hin Hi Ht Hp.
  induction results as [| c rest IH]; [by apply elem_of_nil in Hin |].
  apply elem_of_cons in Hin as [<- | Hin]; simpl.
  - by rewrite Hi, Ht, Hp.
  - destruct c as [| | | | | | d']; auto.
    destruct (negb (instrumental d') && truthy (f d') && p d') eqn:E; [| auto].
    apply andb_prop in E as [E _]. by apply andb_prop in E as [_ E].
Qed.

Lemma store_synced_slot1 (dm : bool) (v : pyval) (st : slots) :
  synced_duration_match (store_synced dm v st)
  = if truthy v && dm && negb (truthy (synced_duration_match st))
    then v else synced_duration_match st.
Proof.
  unfold store_synced.
  destruct (truthy v), dm, (truthy (synced_duration_match st)); simpl;
    try done; by destruct (truthy (synced_any st)).
Qed.

Lemma store_synced_slot2 (dm : bool) (v : pyval) (st : slots) :
  synced_any (store_synced dm v st)
  = if truthy v && negb (dm && negb (truthy (synced_duration_match st)))
       && negb (truthy (synced_any st))
    then v else synced_any st.
Proof.
  unfold store_synced.
  destruct (truthy v), dm, (truthy (synced_duration_match st)); simpl;
    try done; by destruct (truthy (synced_any st)).
Qed.

Lemma store_plain_slot3 (dm : bool) (v : pyval) (st : slots) :
  plain_duration_match (store_plain dm v st)
  = if truthy v && dm && negb (truthy (plain_duration_match st))
    then v else plain_duration_match st.
Proof.
  unfold store_plain.
  destruct (truthy v), dm, (truthy (plain_duration_match st)); simpl;
    try done; by destruct (truthy (plain_any st)).
Qed.

Lemma store_plain_slot4 (dm : bool) (v : pyval) (st : slots) :
  plain_any (store_plain dm v st)
  = if truthy v && negb (dm && negb (truthy (plain_duration_match st)))
       && negb (truthy (plain_any st))
    then v else plain_any st.
Proof.
  unfold store_plain.
  destruct (truthy v), dm, (truthy (plain_duration_match st)); simpl;
    try done; by destruct (truthy (plain_any st)).
Qed.

Lemma matches_flag (t : Z) (d : gmap string pyval) (dm : bool) :
  duration_match (duration_of d) t = Ok dm → matches t d = dm.
Proof. unfold matches. intros ->. by destruct dm. Qed.

(** One iteration, slot by slot, on a record that is not skipped. *)
Lemma loop_body_slots (t : Z) (st st' : slots) (c : pyval) :
  loop_body t st c = Ok st' →
  ∃ d, c = PDict d
    ∧ ((instrumental d = true ∧ st' = st)
       ∨ (instrumental d = false
          ∧ (∃ dm, duration_match (duration_of d) t = Ok dm)
          ∧ synced_duration_match st'
            = (if truthy (synced_of d) && matches t d
                  && negb (truthy (synced_duration_match st))
               then synced_of d else synced_duration_match st)
          ∧ synced_any st'
            = (if truthy (synced_of d)
                  && negb (matches t d && negb (truthy (synced_duration_match st)))
                  && negb (truthy (synced_any st))
               then synced_of d else synced_any st)
          ∧ plain_duration_match st'
            = (if truthy (plain_of d) && matches t d
                  && negb (truthy (plain_duration_match st))
               then plain_of d else plain_duration_match st)
          ∧ plain_any st'
            = (if truthy (plain_of d)
                  && negb (matches t d && negb (truthy (plain_duration_match st)))
                  && negb (truthy (plain_any st))
               then plain_of d else plain_any st))).
Proof.
  intros H.
  apply loop_body_inv in H as (d & -> & [[Hi ->] | (Hi & dm & Hdm & ->)]);
    exists d; (split; [done |]); [by left |].
  right. split; [done |]. split; [by exists dm |].
  rewrite (matches_flag _ _ _ Hdm).
  destruct (store_plain_synced_slots dm (plain_of d)
              (store_synced dm (synced_of d) st)) as [-> ->].
  rewrite store_synced_slot1, store_synced_slot2.
  rewrite store_plain_slot3, store_plain_slot4.
  by destruct (store_synced_plain_slots dm (synced_of d) st) as [-> ->].
Qed.

Lemma first_text_cons_dict (p : gmap string pyval → bool)
    (f : gmap string pyval → pyval) (d : gmap string pyval) (rest : list pyval) :
  first_text p f (PDict d :: rest)
  = if negb (instrumental d) && truthy (f d) && p d then f d
    else first_text p f rest.
Proof. reflexivity. Qed.

(** Slot 1 ends with the synced text of the first record that qualifies
    for it, slot 3 with the plain text of the first that qualifies. *)
Lemma run_loop_match_slots (t : Z) (results : list pyval) :
  ∀ st st', run_loop t st results = Ok st' → slots_ok st →
    synced_duration_match st'
    = (if truthy (synced_duration_match st) then synced_duration_match st
       else first_text (matches t) synced_of results)
    ∧ plain_duration_match st'
      = (if truthy (plain_duration_match st) then plain_duration_match st
         else first_text (matches t) plain_of results).
Proof.
  induction results as [| c rest IH]; intros st st' H Hok; simpl in H.
  - injection H as <-. simpl. destruct Hok as (H1 & _ & H3 & _).
    split.
    + destruct (truthy (synced_duration_match st)) eqn:E; [done |].
      by apply slot_ok_empty.
    + destruct (truthy (plain_duration_match st)) eqn:E; [done |].
      by apply slot_ok_empty.
  - destruct (loop_body t st c) as [st1 |] eqn:E; [| discriminate].
    simpl in H.
    destruct (IH _ _ H (loop_body_ok _ _ _ _ E Hok)) as [-> ->].
    apply loop_body_slots in E
      as (d & -> & [[Hi ->] | (Hi & _ & -> & _ & -> & _)]);
      rewrite !first_text_cons_dict, Hi; simpl; [done |].
    split.
    + destruct (truthy (synced_of d)) eqn:Es, (matches t d),
        (truthy (synced_duration_match st)) eqn:E1; simpl;
        rewrite ?Es, ?E1; done.
    + destruct (truthy (plain_of d)) eqn:Es, (matches t d),
        (truthy (plain_duration_match st)) eqn:E1; simpl;
        rewrite ?Es, ?E1; done.
Qed.

(** While slot 1 stays empty, slot 2 ends with the synced text of the
    first record that has one. *)
Lemma run_loop_synced_any (t : Z) (results : list pyval) :
  ∀ st st', run_loop t st results = Ok st' → slots_ok st →
    truthy (synced_duration_match st') = false →
    synced_any st'
    = (if truthy (synced_any st) then synced_any st
       else first_text (λ _, true) synced_of results).
Proof.
  induction results as [| c rest IH]; intros st st' H Hok Hempty; simpl in H.
  - injection H as <-. simpl. destruct Hok as (_ & H2 & _).
    destruct (truthy (synced_any st)) eqn:E; [done |]. by apply slot_ok_empty.
  - destruct (loop_body t st c) as [st1 |] eqn:E; [| discriminate].
    simpl in H.
    rewrite (IH _ _ H (loop_body_ok _ _ _ _ E Hok) Hempty).
    assert (truthy (synced_duration_match st1) = false) as H1.
    { destruct (truthy (synced_duration_match st1)) eqn:E1; [| done].
      pose proof (run_loop_keeps _ _ Slot1 _ _ H E1) as Hk. simpl in Hk.
      congruence. }
    apply loop_body_slots in E
      as (d & -> & [[Hi ->] | (Hi & _ & Hs1 & -> & _)]);
      rewrite !first_text_cons_dict, Hi; simpl; [done |].
    rewrite Hs1 in H1.
    destruct (truthy (synced_of d)) eqn:Es, (matches t d),
      (truthy (synced_duration_match st)) eqn:E1,
      (truthy (synced_any st)) eqn:E2; simpl in *;
      rewrite ?Es, ?E1, ?E2 in *; done.
Qed.

(** While slot 3 stays empty, slot 4 ends with the plain text of the first
    record that has one. *)
Lemma run_loop_plain_any (t : Z) (results : list pyval) :
  ∀ st st', run_loop t st results = Ok st' → slots_ok st →
    truthy (plain_duration_match st') = false →
    plain_any st'
    = (if truthy (plain_any st) then plain_any st
       else first_text (λ _, true) plain_of results).
Proof.
  induction results as [| c rest IH]; intros st st' H Hok Hempty; simpl in H.
  - injection H as <-. simpl. destruct Hok as (_ & _ & _ & H4).
    destruct (truthy (plain_any st)) eqn:E; [done |]. by apply slot_ok_empty.
  - destruct (loop_body t st c) as [st1 |] eqn:E; [| discriminate].
    simpl in H.
    rewrite (IH _ _ H (loop_body_ok _ _ _ _ E Hok) Hempty).
    assert (truthy (plain_duration_match st1) = false) as H1.
    { destruct (truthy (plain_duration_match st1)) eqn:E1; [| done].
      pose proof (run_loop_keeps _ _ Slot3 _ _ H E1) as Hk. simpl in Hk.
      congruence. }
    apply loop_body_slots in E
      as (d & -> & [[Hi ->] | (Hi & _ & _ & _ & Hs3 & ->)]);
      rewrite !first_text_cons_dict, Hi; simpl; [done |].
    rewrite Hs3 in H1.
    destruct (truthy (plain_of d)) eqn:Es, (matches t d),
      (truthy (plain_duration_match st)) eqn:E1,
      (truthy (plain_any st)) eqn:E2; simpl in *;
      rewrite ?Es, ?E1, ?E2 in *; done.
Qed.

Lemma first_nonempty_none (l : list pyval) :
  first_nonempty (PNone :: l) = first_nonempty l.
Proof. reflexivity. Qed.

Lemma first_nonempty_truthy (v : pyval) (l : list pyval) :
  truthy v = true → first_nonempty (v :: l) = v.
Proof. by destruct v. Qed.

(** The result of a loop that ends normally is the one the four searches
    give. *)
Lemma pick_priority_search (results : list pyval) (t : Z) (st : slots) :
  run_loop t empty_slots results = Ok st →
  pick st = priority_search results t.
Proof.
  intros H.
  pose proof (run_loop_ok _ _ _ _ H empty_slots_ok) as Hok.
  destruct (run_loop_match_slots _ _ _ _ H empty_slots_ok) as [H1 H3].
  simpl in H1, H3.
  pose proof (run_loop_synced_any _ _ _ _ H empty_slots_ok) as H2.
  pose proof (run_loop_plain_any _ _ _ _ H empty_slots_ok) as H4.
  simpl in H2, H4.
  rewrite (pick_first_nonempty _ Hok). unfold slot_list, priority_search.
  rewrite H1, H3.
  destruct (first_text_ok (matches t) synced_of results) as [E1 | E1].
  - rewrite E1 in *. rewrite H2 by (by rewrite H1).
    rewrite !first_nonempty_none.
    destruct (first_text_ok (λ _, true) synced_of results) as [E2 | E2].
    + rewrite E2, !first_nonempty_none.
      destruct (first_text_ok (matches t) plain_of results) as [E3 | E3].
      * rewrite E3 in *. by rewrite H4 by (by rewrite H3).
      * by rewrite !(first_nonempty_truthy _ _ E3).
    + by rewrite !(first_nonempty_truthy _ _ E2).
  - by rewrite !(first_nonempty_truthy _ _ E1).
Qed.

(** X1: on every list on which the loop ends normally (every list of
    candidates does), [choose_best_result] returns the synced text of the
    first record, not instrumental, with synced text and a matching
    duration; failing that, the synced text of the first record with
    synced text; failing that, the plain text of the first record with
    plain text and a matching duration; failing that, the plain text of
    the first record with plain text; and [None] when no record has a
    text. *)
Theorem choose_best_result_priority_search (results : list pyval) (t : Z) :
  (∀ v, choose_best_result results t = Ok v → v = priority_search results t)
  ∧ (Forall (λ c, is_candidate c = true) results →
     choose_best_result results t = Ok (priority_search results t)).
Proof.
  split.
  - intros v H. apply choose_best_result_inv in H as (st & Hrun & _ & ->).
    by apply pick_priority_search.
  - intros Hc. destruct (run_loop_total t results Hc empty_slots) as [st Hst].
    unfold choose_best_result. rewrite Hst. simpl. f_equal.
    by apply pick_priority_search.
Qed.

Lemma choose_best_result_priority_search_witness :
  PStr "S" = priority_search [plain_A; synced_far; synced_B] 100
  ∧ choose_best_result [plain_A; synced_far; synced_B] 180
    = Ok (priority_search [plain_A; synced_far; synced_B] 180).
Proof.
  split.
  - apply (proj1 (choose_best_result_priority_search
                    [plain_A; synced_far; synced_B] 100)).
    reflexivity.
  - apply (proj2 (choose_best_result_priority_search
                    [plain_A; synced_far; synced_B] 180)).
    repeat constructor.
Defined.

(** ** When the selector raises *)

Lemma int_to_float_raises (t : Z) (e : exn) :
  int_to_float t = Raise e → e = OverflowError.
Proof.
  unfold int_to_float.
  destruct (binary_normalize prec emax t 0 false); congruence.
Qed.

Lemma duration_match_error (v : pyval) (t : Z) :
  match duration_error t v with
  | Some e => duration_match v t = Raise e
  | None => ∃ dm, duration_match v t = Ok dm
  end.
Proof.
  unfold duration_error, duration_match, py_sub. simpl.
  destruct (truthy v && negb (t =? 0)); [| eauto].
  destruct v; simpl; eauto.
  destruct (int_to_float t) as [g | e] eqn:E; simpl; [eauto |].
  by rewrite (int_to_float_raises _ _ E).
Qed.

Lemma loop_body_element_error (t : Z) (st : slots) (c : pyval) :
  match element_error t c with
  | Some e => loop_body t st c = Raise e
  | None => ∃ st', loop_body t st c = Ok st'
  end.
Proof.
  destruct c as [| | | | | | d]; try reflexivity.
  unfold element_error. rewrite loop_body_dict.
  destruct (instrumental d); [eauto |].
  pose proof (duration_match_error (duration_of d) t) as H.
  destruct (duration_error t (duration_of d)) as [e |].
  - by rewrite H.
  - destruct H as [dm ->]. simpl. eauto.
Qed.

Lemma run_loop_first_error (t : Z) (results : list pyval) :
  ∀ st,
    match first_error t results with
    | Some e => run_loop t st results = Raise e
    | None => ∃ st', run_loop t st results = Ok st'
    end.
Proof.
  induction results as [| c rest IH]; intros st; simpl; [eauto |].
  pose proof (loop_body_element_error t st c) as Hc.
  destruct (element_error t c) as [e |].
  - by rewrite Hc.
  - destruct Hc as [st1 ->]. simpl. apply IH.
Qed.

Lemma first_error_not_dict (t : Z) (results : list pyval) (c : pyval) :
  c ∈ results → (∀ d, c ≠ PDict d) → ∃ e, first_error t results = Some e.
Proof.
  intros Hin Hc.
  induction results as [| c' rest IH]; [by apply elem_of_nil in Hin |].
  simpl. apply elem_of_cons in Hin as [<- | Hin].
  - destruct c; simpl; eauto. by destruct (Hc d).
  - destruct (element_error t c'); eauto.
Qed.

Lemma first_error_zero_target (results : list pyval) :
  (∀ c, c ∈ results → ∃ d, c = PDict d) → first_error 0 results = None.
Proof.
  induction results as [| c rest IH]; intros H; simpl; [done |].
  destruct (H c) as [d ->]; [by left |].
  assert (element_error 0 (PDict d) = None) as ->.
  { simpl. unfold duration_error. simpl. rewrite andb_false_r.
    by destruct (instrumental d). }
  apply IH. intros c' Hc'. apply H. by right.
Qed.

Lemma choose_best_result_raises_not_dict
    (t : Z) (results : list pyval) (c : pyval) :
  c ∈ results → (∀ d, c ≠ PDict d) →
  ∃ e, choose_best_result results t = Raise e.
Proof.
  intros Hin Hc.
  destruct (first_error_not_dict t results c Hin Hc) as [e He].
  pose proof (run_loop_first_error t results empty_slots) as H.
  rewrite He in H. exists e. unfold choose_best_result. by rewrite H.
Qed.

(** X2: [choose_best_result] raises exactly when the list holds an element
    that is not a record (AttributeError) or, the target not being zero, a
    record that is not instrumental and whose duration tests true and is
    either no number (TypeError) or a float while the target is too large
    for a double (OverflowError); the exception is that of the first such
    element, and otherwise a value is returned.  One element that is not
    a record is enough to lose the whole selection; with target 0 nothing
    else can. *)
Theorem choose_best_result_raises (results : list pyval) (t : Z) :
  match first_error t results with
  | Some e => choose_best_result results t = Raise e
  | None => ∃ v, choose_best_result results t = Ok v
  end
  ∧ (∀ c, c ∈ results → (∀ d, c ≠ PDict d) →
       ∃ e, choose_best_result results t = Raise e)
  ∧ ((∀ c, c ∈ results → ∃ d, c = PDict d) →
     ∃ v, choose_best_result results 0 = Ok v).
Proof.
  split; [| split].
  - pose proof (run_loop_first_error t results empty_slots) as H.
    unfold choose_best_result.
    destruct (first_error t results) as [e |].
    + by rewrite H.
    + destruct H as [st ->]. simpl. eauto.
  - intros c. apply choose_best_result_raises_not_dict.
  - intros H.
    pose proof (run_loop_first_error 0 results empty_slots) as Hr.
    rewrite (first_error_zero_target results H) in Hr.
    destruct Hr as [st Hst]. unfold choose_best_result. rewrite Hst.
    simpl. eauto.
Qed.

Lemma choose_best_result_raises_witness :
  (∃ e, choose_best_result [synced_A; PStr "junk"] 180 = Raise e)
  ∧ (∃ v, choose_best_result [text_duration; synced_A] 0 = Ok v).
Proof.
  split.
  - apply (proj1 (proj2 (choose_best_result_raises
                           [synced_A; PStr "junk"] 180)) (PStr "junk")).
    + right. left.
    + intros d. discriminate.
  - apply (proj2 (proj2 (choose_best_result_raises
                           [text_duration; synced_A] 0))).
    intros c Hc.
    apply elem_of_cons in Hc as [-> | Hc]; [by eexists |].
    apply elem_of_cons in Hc as [-> | Hc]; [by eexists |].
    by apply elem_of_nil in Hc.
Defined.

(** ** Synced text before plain text *)

Lemma choose_best_result_search (results : list pyval) (t : Z) (v : pyval) :
  choose_best_result results t = Ok v → v = priority_search results t.
Proof.
  intros H. apply choose_best_result_inv in H as (st & Hrun & _ & ->).
  by apply pick_priority_search.
Qed.

(** X3: when some record of the list that is not instrumental has synced
    text, the result is the synced text of such a record: plain text is
    returned only when no synced text is found. *)
Theorem synced_text_preferred
    (results : list pyval) (t : Z) (v : pyval) (d : gmap string pyval) :
  choose_best_result results t = Ok v →
  PDict d ∈ results → instrumental d = false → truthy (synced_of d) = true →
  ∃ d', PDict d' ∈ results ∧ instrumental d' = false
      ∧ truthy (synced_of d') = true ∧ v = synced_of d'.
Proof.
  intros H Hin Hi Hs. apply choose_best_result_search in H as ->.
  unfold priority_search.
  pose proof (first_text_found (λ _, true) synced_of results d Hin Hi Hs eq_refl)
    as H2.
  destruct (first_text_source (matches t) synced_of results)
    as [E1 | (d1 & Hin1 & Hi1 & Hs1 & _ & E1)].
  - rewrite E1, first_nonempty_none, (first_nonempty_truthy _ _ H2).
    destruct (first_text_source (λ _, true) synced_of results)
      as [E2 | (d2 & Hin2 & Hi2 & Hs2 & _ & E2)].
    + rewrite E2 in H2. discriminate.
    + by exists d2.
  - rewrite first_nonempty_truthy by (by rewrite E1). by exists d1.
Qed.

Lemma synced_text_preferred_witness :
  ∃ d', PDict d' ∈ [plain_A; synced_far] ∧ instrumental d' = false
      ∧ truthy (synced_of d') = true ∧ PStr "S" = synced_of d'.
Proof.
  apply (synced_text_preferred [plain_A; synced_far] 180 (PStr "S")
           fields_synced_far).
  - reflexivity.
  - right. left.
  - reflexivity.
  - reflexivity.
Defined.

(** ** Target 0 *)

Lemma first_text_never (f : gmap string pyval → pyval) (results : list pyval)
    (p : gmap string pyval → bool) :
  (∀ d, p d = false) → first_text p f results = PNone.
Proof.
  intros Hp. induction results as [| c rest IH]; simpl; [done |].
  destruct c; try done. by rewrite Hp, andb_false_r.
Qed.

Lemma loop_body_strip_duration (st : slots) (c : pyval) :
  loop_body 0 st (strip_duration c) = loop_body 0 st c.
Proof.
  destruct c as [| | | | | | d]; try reflexivity.
  unfold strip_duration. rewrite !loop_body_dict.
  unfold instrumental, synced_of, plain_of.
  rewrite (dict_get_delete_ne _ "duration" "instrumental") by done.
  rewrite (dict_get_delete_ne _ "duration" "syncedLyrics") by done.
  rewrite (dict_get_delete_ne _ "duration" "plainLyrics") by done.
  by rewrite !duration_match_zero_target.
Qed.

(** X4: with target 0 (what a missing length gives) the durations of the
    records play no part: the call gives the same outcome on the list
    with every duration removed, and a returned value is the synced text
    of the first record, not instrumental, that has one, or else the
    plain text of the first that has one. *)
Theorem zero_target_ignores_durations (results : list pyval) :
  choose_best_result (map strip_duration results) 0
  = choose_best_result results 0
  ∧ (∀ v, choose_best_result results 0 = Ok v →
       v = py_or (first_text (λ _, true) synced_of results)
                 (first_text (λ _, true) plain_of results)).
Proof.
  split.
  - unfold choose_best_result. f_equal.
    generalize empty_slots.
    induction results as [| c rest IH]; intros st; simpl; [done |].
    rewrite loop_body_strip_duration.
    destruct (loop_body 0 st c) as [st1 |]; simpl; [apply IH | done].
  - intros v H. apply choose_best_result_search in H as ->.
    unfold priority_search.
    assert (∀ d, matches 0 d = false) as Hno.
    { intros d. unfold matches. by rewrite duration_match_zero_target. }
    rewrite !(first_text_never _ _ _ Hno), first_nonempty_none.
    unfold py_or.
    destruct (first_text_ok (λ _, true) synced_of results) as [E2 | E2].
    + rewrite E2, !first_nonempty_none.
      destruct (first_text_ok (λ _, true) plain_of results) as [E4 | E4].
      * by rewrite E4.
      * by rewrite (first_nonempty_truthy _ _ E4).
    + by rewrite E2, (first_nonempty_truthy _ _ E2).
Qed.

Lemma zero_target_ignores_durations_witness :
  PStr "T"
  = py_or (first_text (λ _, true) synced_of [text_duration; plain_A])
          (first_text (λ _, true) plain_of [text_duration; plain_A]).
Proof.
  apply (proj2 (zero_target_ignores_durations [text_duration; plain_A])).
  reflexivity.
Defined.

(** ** The fields the selector reads *)

Lemma loop_body_same_fields (t : Z) (st : slots) (c1 c2 : pyval) :
  same_fields c1 c2 → loop_body t st c1 = loop_body t st c2.
Proof.
  destruct c1 as [| | | | | | d1], c2 as [| | | | | | d2]; try done.
  simpl. intros (Hi & Hd & Hs & Hp).
  rewrite !loop_body_dict. unfold instrumental. by rewrite Hi, Hd, Hs, Hp.
Qed.

(** X5: the selector reads nothing of a record but the four fields
    instrumental, duration, syncedLyrics and plainLyrics, a missing field
    counting as [None]: two lists whose records agree on these fields,
    position by position, give the same outcome.  Track and artist names
    of a candidate, in particular, are never looked at. *)
Theorem selector_reads_four_fields (results1 results2 : list pyval) (t : Z) :
  Forall2 same_fields results1 results2 →
  choose_best_result results1 t = choose_best_result results2 t.
Proof.
  intros H. unfold choose_best_result. f_equal.
  generalize empty_slots.
  induction H as [| c1 c2 rest1 rest2 Hc _ IH]; intros st; simpl; [done |].
  rewrite (loop_body_same_fields t st c1 c2 Hc).
  destruct (loop_body t st c2) as [st1 |]; simpl; [apply IH | done].
Qed.

Lemma selector_reads_four_fields_witness :
  choose_best_result [both; PNone] 180
  = choose_best_result
      [PDict (<["instrumental" := PNone]> (delete "trackName" fields_both));
       PInt 7] 180.
Proof.
  apply (selector_reads_four_fields [both; PNone]).
  repeat constructor.
Defined.

(** * Further properties of the glue *)

(** ** The length string *)

Lemma split_on_nonempty (sep : ascii) (s : string) : split_on sep s ≠ [].
Proof.
  destruct s as [| c s']; simpl; [done |].
  destruct (Ascii.eqb c sep); [done |]. by destruct (split_on sep s').
Qed.

Lemma split_on_no_sep (sep : ascii) (s : string) :
  occurs sep s = false → split_on sep s = [s].
Proof.
  induction s as [| c s' IH]; simpl; [done |].
  intros H. apply orb_false_elim in H as [-> Hs]. by rewrite (IH Hs).
Qed.

Lemma split_on_app (sep : ascii) (m n : string) :
  occurs sep m = false →
  split_on sep (m +:+ String sep n) = m :: split_on sep n.
Proof.
  induction m as [| c m' IH]; simpl.
  - intros _. by rewrite Ascii.eqb_refl.
  - intros H. apply orb_false_elim in H as [-> Hm]. by rewrite (IH Hm).
Qed.

Lemma split_on_cons_inv (sep : ascii) (s : string) :
  ∀ p ps, split_on sep s = p :: ps →
    occurs sep p = false
    ∧ ((ps = [] ∧ s = p)
       ∨ ∃ s', s = p +:+ String sep s' ∧ split_on sep s' = ps).
Proof.
  induction s as [| c s' IH]; intros p ps H; simpl in H.
  - injection H as <- <-. auto.
  - destruct (Ascii.eqb c sep) eqn:Ec.
    + injection H as <- <-. apply Ascii.eqb_eq in Ec as ->.
      split; [done |]. right. by exists s'.
    + destruct (split_on sep s') as [| q qs] eqn:Es;
        [by destruct (split_on_nonempty sep s') |].
      injection H as <- <-.
      destruct (IH q qs eq_refl) as [Hq Hs]. simpl. rewrite Ec, Hq.
      split; [done |].
      destruct Hs as [[-> ->] | (s'' & -> & Hs'')]; [by left |].
      right. by exists s''.
Qed.

(** The strings that split in two at the colon. *)
Lemma split_on_two (s m n : string) :
  split_on ":" s = [m; n]
  ↔ s = m +:+ String ":" n ∧ occurs ":" m = false ∧ occurs ":" n = false.
Proof.
  split.
  - intros H. apply split_on_cons_inv in H as [Hm [[? _] | (s' & -> & H)]];
      [done |].
    apply split_on_cons_inv in H as [Hn [[_ ->] | (s'' & _ & H)]]; [done |].
    by destruct (split_on_nonempty ":" s'').
  - intros (-> & Hm & Hn). by rewrite split_on_app, split_on_no_sep.
Qed.

(** X6: the length string is accepted exactly when it is two numerals
    that [int] reads, separated by the one colon of the string; the value
    is then sixty times the first plus the second, the second not being
    limited to 59.  Every other string, among them a length with hours
    (two colons), raises ValueError. *)
Theorem parse_length_accepts (s : string) (z : Z) :
  (parse_length (PStr s) = Ok z
   ↔ ∃ m n a b,
       s = m +:+ String ":" n
       ∧ occurs ":" m = false ∧ occurs ":" n = false
       ∧ py_int m = Some a ∧ py_int n = Some b
       ∧ z = a * 60 + b)
  ∧ (∀ e, parse_length (PStr s) = Raise e → e = ValueError).
Proof.
  split.
  - split.
    + intros H. simpl in H.
      destruct (split_on ":" s) as [| m [| n [| x l]]] eqn:Es; try discriminate.
      destruct (py_int m) as [a |] eqn:Ea; [| discriminate].
      destruct (py_int n) as [b |] eqn:Eb; [| discriminate].
      injection H as <-.
      apply split_on_two in Es as (-> & Hm & Hn).
      by exists m, n, a, b.
    + intros (m & n & a & b & Hs & Hm & Hn & Ha & Hb & ->).
      assert (split_on ":" s = [m; n]) as Es by (by apply split_on_two).
      simpl. by rewrite Es, Ha, Hb.
  - intros e H. simpl in H.
    destruct (split_on ":" s) as [| m [| n [| x l]]]; try congruence.
    destruct (py_int m), (py_int n); congruence.
Qed.

Lemma parse_length_accepts_witness :
  parse_length (PStr "2:75") = Ok 195
  ∧ (∃ m n a b,
       "10:07"%string = m +:+ String ":" n
       ∧ occurs ":" m = false ∧ occurs ":" n = false
       ∧ py_int m = Some a ∧ py_int n = Some b
       ∧ 607 = a * 60 + b)
  ∧ ValueError = ValueError.
Proof.
  split; [| split].
  - apply (proj1 (parse_length_accepts "2:75" 195)).
    exists "2"%string, "75"%string, 2, 75. repeat split; reflexivity.
  - apply (proj1 (parse_length_accepts "10:07" 607)). reflexivity.
  - symmetry.
    apply (proj2 (parse_length_accepts "1:02:03" 0) ValueError). reflexivity.
Defined.

(** ** One bad element in the response *)

(** X7: when the decoded list holds an element that is not a record (and
    the length parses), [process_response] attaches no lyrics, whatever
    the other elements offer: the exception of the selector is logged as
    an error after the count of results, the metadata is left as it was
    and the counter is released. *)
Theorem bad_element_discards_response
    (w : world) (results : list pyval) (error c : pyval) (t : Z) :
  truthy error = false →
  target_of w = Ok t →
  c ∈ results → (∀ d, c ≠ PDict d) →
  ∃ e,
    run (process_response (PList results) error) w
    = World (requests w - 1) (S (finalize_calls w)) (webservice w) (metadata w)
        ((logged w ++ [LogDebug (MsgProcessing (length results))])
         ++ [LogError (MsgProcessingError e)]).
Proof.
  intros He Ht Hin Hc.
  destruct (choose_best_result_raises_not_dict t results c Hin Hc) as [e Hr].
  exists e. unfold run.
  by rewrite (response_selector_error_path _ _ _ t e).
Qed.

Lemma bad_element_discards_response_witness :
  ∃ e,
    run (process_response (PList [synced_A; PNone]) PNone) (idle ∅)
    = World (1 - 1) 1 [] ∅
        (([] ++ [LogDebug (MsgProcessing 2)])
         ++ [LogError (MsgProcessingError e)]).
Proof.
  apply (bad_element_discards_response (idle ∅) [synced_A; PNone] PNone PNone 0).
  - reflexivity.
  - reflexivity.
  - right. left.
  - intros d. discriminate.
Defined.

(** ** The log *)

Lemma new_entries_app (w w' : world) (l : list log_entry) :
  logged w' = logged w ++ l → new_entries w w' = l.
Proof. unfold new_entries. intros ->. apply drop_app_length. Qed.

(** The entries a response adds to the log, path by path. *)
Lemma response_new_entries (w : world) (data error : pyval) :
  logged (run (process_response data error) w)
  = logged w ++ new_entries w (run (process_response data error) w)
  ∧ ((¬ selection_completes w data error
      ∧ ∃ m, new_entries w (run (process_response data error) w) = [LogError m])
     ∨ (∃ results t e,
          truthy error = false ∧ data = PList results ∧ target_of w = Ok t
          ∧ choose_best_result results t = Raise e
          ∧ new_entries w (run (process_response data error) w)
            = [LogDebug (MsgProcessing (length results));
               LogError (MsgProcessingError e)])
     ∨ (∃ results t v,
          truthy error = false ∧ data = PList results ∧ target_of w = Ok t
          ∧ choose_best_result results t = Ok v
          ∧ new_entries w (run (process_response data error) w)
            = [LogDebug (MsgProcessing (length results));
               LogDebug (if truthy v then MsgAttached else MsgNoLyrics)])).
Proof.
  unfold run.
  destruct (response_path_cases w data error)
    as [He | He Hd | rs e He -> Hp | rs t e He -> Hp Hc
        | rs t v He -> Hp Hc Hv | rs t v He -> Hp Hc Hv].
  - rewrite response_transport_error_path by done. simpl.
    rewrite (new_entries_app w _ [LogError MsgRequestFailed]) by done.
    split; [done |]. left. split; [| eauto].
    intros (rs & t & v & He' & _). congruence.
  - rewrite response_not_list_path by done. simpl.
    rewrite (new_entries_app w _ [LogError (MsgUnexpectedResponse data)]) by done.
    split; [done |]. left. split; [| eauto].
    intros (rs & t & v & _ & -> & _). by destruct (Hd rs).
  - rewrite (response_parse_error_path _ _ _ e) by done. simpl.
    rewrite (new_entries_app w _ [LogError (MsgProcessingError e)]) by done.
    split; [done |]. left. split; [| eauto].
    intros (rs' & t & v & _ & _ & Ht & _). congruence.
  - rewrite (response_selector_error_path _ _ _ t e) by done. simpl.
    rewrite <- app_assoc. simpl.
    rewrite (new_entries_app w _ [LogDebug (MsgProcessing (length rs));
                                  LogError (MsgProcessingError e)]) by done.
    split; [done |]. right. left. by exists rs, t, e.
  - rewrite (response_lyrics_path _ _ _ t v) by done. simpl.
    rewrite <- app_assoc. simpl.
    rewrite (new_entries_app w _ [LogDebug (MsgProcessing (length rs));
                                  LogDebug MsgAttached]) by done.
    split; [done |]. right. right. exists rs, t, v. by rewrite Hv.
  - rewrite (response_no_lyrics_path _ _ _ t v) by done. simpl.
    rewrite <- app_assoc. simpl.
    rewrite (new_entries_app w _ [LogDebug (MsgProcessing (length rs));
                                  LogDebug MsgNoLyrics]) by done.
    split; [done |]. right. right. exists rs, t, v. by rewrite Hv.
Qed.

(** X8: [process_response] only appends to the log: it adds one or two
    entries after the ones that were there.  An error entry is among them
    exactly when the response was not processed to the end (transport
    error, payload that is not a list, length that does not parse,
    selector that raises), and "Lyrics successfully attached" exactly
    when the selector returned a value that tests true. *)
Theorem response_log (w : world) (data error : pyval) :
  logged (run (process_response data error) w)
  = logged w ++ new_entries w (run (process_response data error) w)
  ∧ (1 ≤ length (new_entries w (run (process_response data error) w)) ≤ 2)%nat
  ∧ ((∃ m, LogError m ∈ new_entries w (run (process_response data error) w))
     ↔ ¬ selection_completes w data error)
  ∧ (LogDebug MsgAttached ∈ new_entries w (run (process_response data error) w)
     ↔ ∃ results t v,
         truthy error = false ∧ data = PList results ∧ target_of w = Ok t
         ∧ choose_best_result results t = Ok v ∧ truthy v = true).
Proof.
  destruct (response_new_entries w data error)
    as [Hlog [(Hno & m & Hn) | [(rs & t & e & He & -> & Ht & Hc & Hn)
                               | (rs & t & v & He & -> & Ht & Hc & Hn)]]];
    (split; [exact Hlog |]); rewrite Hn; (split; [simpl; lia |]).
  - split.
    + split; [done |]. intros _. exists m. by left.
    + split.
      * intros H. apply list_elem_of_singleton in H. discriminate.
      * intros (rs & t & v & He & Hd & Ht & Hc & _). destruct Hno.
        by exists rs, t, v.
  - split.
    + split.
      * intros _ (rs' & t' & v & _ & [= <-] & Ht' & Hc'). congruence.
      * intros _. exists (MsgProcessingError e). right. by left.
    + split.
      * intros H. apply elem_of_cons in H as [H | H]; [discriminate |].
        apply list_elem_of_singleton in H. discriminate.
      * intros (rs' & t' & v & _ & [= <-] & Ht' & Hc' & _). congruence.
  - split.
    + split.
      * intros (m & H). apply elem_of_cons in H as [H | H]; [discriminate |].
        apply list_elem_of_singleton in H. discriminate.
      * intros H. destruct H. by exists rs, t, v.
    + split.
      * intros H. exists rs, t, v. repeat split; try done.
        apply elem_of_cons in H as [H | H]; [discriminate |].
        apply list_elem_of_singleton in H. by destruct (truthy v).
      * intros (rs' & t' & v' & _ & [= <-] & Ht' & Hc' & Hv).
        assert (v' = v) as -> by congruence. rewrite Hv. right. by left.
Qed.

Lemma response_log_witness :
  (∃ m, LogError m
        ∈ new_entries (idle unknown_length)
            (run (process_response (PList [plain_C]) PNone) (idle unknown_length)))
  ∧ LogDebug MsgAttached
    ∈ new_entries (idle ∅) (run (process_response (PList [plain_C]) PNone) (idle ∅)).
Proof.
  split.
  - apply (proj1 (proj2 (proj2 (response_log (idle unknown_length)
                                  (PList [plain_C]) PNone)))).
    intros (rs & t & v & _ & _ & Ht & _). discriminate Ht.
  - apply (proj2 (proj2 (proj2 (response_log (idle ∅) (PList [plain_C]) PNone)))).
    exists [plain_C], 0, (PStr "C"). repeat split; reflexivity.
Defined.

(** ** The request of a track *)

Lemma process_track_run (w : world) :
  run process_track w
  = let query : gmap string pyval :=
      <["track_name" := dict_get (metadata w) "title"]>
        (<["artist_name" := dict_get (metadata w) "artist"]> ∅) in
    World (requests w + 1) (finalize_calls w)
      (webservice w ++ [Request API_URL "json" query])
      (metadata w) (logged w ++ [LogDebug (MsgQuerying query)]).
Proof.
  unfold run, process_track, track_duration, try_except, metadata_get_default,
    metadata_get, get_url, log_debug, write_log, add_requests, eval,
    mbind, M_bind, mret, M_ret. simpl.
  by destruct (parse_length (default (PStr "0:0") (metadata w !! "~length"))).
Qed.

(** X9: [process_track] reads nothing of the metadata but the artist and
    the title, and leaves the metadata as it is: on two metadata maps
    with the same artist and title it hands the same request to the web
    service, adds the same log entry and counts the same.  The length of
    the track, in particular, never reaches the request, whether it
    parses or not. *)
Theorem process_track_reads_artist_title (w : world) (m : gmap string pyval) :
  dict_get m "artist" = dict_get (metadata w) "artist" →
  dict_get m "title" = dict_get (metadata w) "title" →
  webservice (run process_track (with_metadata m w))
  = webservice (run process_track w)
  ∧ logged (run process_track (with_metadata m w))
    = logged (run process_track w)
  ∧ requests (run process_track (with_metadata m w))
    = requests (run process_track w)
  ∧ metadata (run process_track (with_metadata m w)) = m
  ∧ metadata (run process_track w) = metadata w.
Proof.
  intros Ha Ht. rewrite !process_track_run. simpl. by rewrite Ha, Ht.
Qed.

Lemma process_track_reads_artist_title_witness :
  webservice (run process_track (with_metadata unknown_length (idle ∅)))
  = webservice (run process_track (idle ∅))
  ∧ logged (run process_track (with_metadata unknown_length (idle ∅)))
    = logged (run process_track (idle ∅))
  ∧ requests (run process_track (with_metadata unknown_length (idle ∅)))
    = requests (run process_track (idle ∅))
  ∧ metadata (run process_track (with_metadata unknown_length (idle ∅)))
    = unknown_length
  ∧ metadata (run process_track (idle ∅)) = metadata (idle ∅).
Proof.
  apply (process_track_reads_artist_title (idle ∅) unknown_length); reflexivity.
Defined.

(** ** Sequences of calls *)

Lemma handle_effect (ev : event) (w : world) :
  requests (run (handle ev) w)
  = requests w + Z.of_nat (dispatches [ev]) - Z.of_nat (responses [ev])
  ∧ finalize_calls (run (handle ev) w)
    = (finalize_calls w + responses [ev])%nat
  ∧ length (webservice (run (handle ev) w))
    = (length (webservice w) + dispatches [ev])%nat.
Proof.
  destruct ev as [| data error]; simpl.
  - rewrite process_track_run. simpl. rewrite length_app. simpl.
    repeat split; lia.
  - destruct (process_response_effect w data error) as (-> & -> & -> & _).
    repeat split; lia.
Qed.

(** X10: over any sequence of calls of the hook and of the response
    handler, in any order and with any payloads, the in-flight counter
    moves by the number of dispatches minus the number of responses, the
    host is told "loading finalized" once per response and the web
    service receives one request per dispatch; when every dispatched
    request has been answered the counter is back where it started. *)
Theorem counter_accounting (evs : list event) (w : world) :
  requests (run_events evs w)
  = requests w + Z.of_nat (dispatches evs) - Z.of_nat (responses evs)
  ∧ finalize_calls (run_events evs w) = (finalize_calls w + responses evs)%nat
  ∧ length (webservice (run_events evs w))
    = (length (webservice w) + dispatches evs)%nat
  ∧ (dispatches evs = responses evs →
     requests (run_events evs w) = requests w).
Proof.
  assert (requests (run_events evs w)
          = requests w + Z.of_nat (dispatches evs) - Z.of_nat (responses evs)
          ∧ finalize_calls (run_events evs w)
            = (finalize_calls w + responses evs)%nat
          ∧ length (webservice (run_events evs w))
            = (length (webservice w) + dispatches evs)%nat) as (H1 & H2 & H3).
  { revert w. induction evs as [| ev rest IH]; intros w; simpl.
    - repeat split; lia.
    - destruct (IH (run (handle ev) w)) as (-> & -> & ->).
      destruct (handle_effect ev w) as (-> & -> & ->).
      destruct ev; simpl; repeat split; lia. }
  repeat split; try done. intros E. rewrite H1, E. lia.
Qed.

Lemma counter_accounting_witness :
  requests
    (run_events [Dispatch; Dispatch; Response PNone (PInt 3);
                 Response (PList [plain_C]) PNone] (idle ∅))
  = requests (idle ∅).
Proof.
  apply (proj2 (proj2 (proj2 (counter_accounting
           [Dispatch; Dispatch; Response PNone (PInt 3);
            Response (PList [plain_C]) PNone] (idle ∅))))).
  reflexivity.
Defined.

(** ** A response delivered twice *)

Lemma target_of_with_lyrics (w w' : world) (v : pyval) :
  metadata w' = <["lyrics" := v]> (metadata w) → target_of w' = target_of w.
Proof. unfold target_of. intros ->. by rewrite lookup_insert_ne. Qed.

(** X11: delivering the same response a second time changes no metadata:
    the metadata after two calls of [process_response] is the metadata
    after one (the counter, for its part, is released twice). *)
Theorem response_twice (w : world) (data error : pyval) :
  metadata (run (process_response data error)
              (run (process_response data error) w))
  = metadata (run (process_response data error) w)
  ∧ requests (run (process_response data error)
                (run (process_response data error) w))
    = requests w - 2.
Proof.
  split.
  - unfold run.
    destruct (response_path_cases w data error)
      as [He | He Hd | rs e He -> Hp | rs t e He -> Hp Hc
          | rs t v He -> Hp Hc Hv | rs t v He -> Hp Hc Hv].
    + by rewrite !response_transport_error_path.
    + by rewrite !response_not_list_path.
    + rewrite (response_parse_error_path w _ _ e) by done. simpl.
      by rewrite (response_parse_error_path _ _ _ e).
    + rewrite (response_selector_error_path w _ _ t e) by done. simpl.
      by rewrite (response_selector_error_path _ _ _ t e).
    + rewrite (response_lyrics_path w _ _ t v) by done. simpl.
      rewrite (response_lyrics_path _ _ _ t v); try done.
      * simpl. apply insert_insert_eq.
      * rewrite <- Hp. by apply (target_of_with_lyrics w _ v).
    + rewrite (response_no_lyrics_path w _ _ t v) by done. simpl.
      by rewrite (response_no_lyrics_path _ _ _ t v).
  - destruct (process_response_effect (run (process_response data error) w)
                data error) as (-> & _).
    destruct (process_response_effect w data error) as (-> & _). lia.
Qed.
